(** * Identity, authorization and competition lifecycle of backend/server.py

    A shallow embedding of the FastAPI handlers of [backend/server.py]:
    the Mongo collections are lists of documents (insertion order is the
    natural order [find_one] scans), a handler is a function from the
    database to a result and a database, [HTTPException] is the error of a
    small state-and-error monad, and the values the handlers draw from the
    environment (the clock, [uuid.uuid4()], the bcrypt salt) are explicit
    arguments.  The handlers are given twice: as functions, which run a
    request in one piece, and as processes with one step for each [await],
    which the server interleaves. *)

From stdpp Require Import base strings list gmap.
From Stdlib Require Import ZArith Lia DecimalString.

Local Open Scope Z_scope.
Local Open Scope string_scope.

(** ** Enumerations *)

Inductive UserRole := ORGANIZER | PARTICIPANT | JUDGE.

Inductive EventStatus :=
  DRAFT | ACTIVE | SUBMISSIONS_OPEN | SUBMISSIONS_CLOSED | JUDGING | COMPLETED.

Global Instance UserRole_eq_dec : EqDecision UserRole.
Proof. solve_decision. Defined.

Global Instance EventStatus_eq_dec : EqDecision EventStatus.
Proof. solve_decision. Defined.

(** The string value of a [str, Enum] member. *)
Definition role_value (r : UserRole) : string :=
  match r with
  | ORGANIZER => "organizer"
  | PARTICIPANT => "participant"
  | JUDGE => "judge"
  end.

(** ** Models (pydantic classes); a [datetime] is a number of seconds. *)

Module User.
Record t := mk {
  id : string;
  email : string;
  name : string;
  role : UserRole;
  created_at : Z;
  is_active : bool }.
End User.

Module UserCreate.
Record t := mk { email : string; name : string; password : string; role : UserRole }.
End UserCreate.

Module UserLogin.
Record t := mk { email : string; password : string }.
End UserLogin.

Module UserResponse.
Record t := mk {
  id : string; email : string; name : string; role : string; created_at : Z }.
End UserResponse.

Module Event.
Record t := mk {
  id : string;
  title : string;
  description : string;
  organizer_id : string;
  status : EventStatus;
  start_date : Z;
  end_date : Z;
  submission_deadline : Z;
  max_team_size : Z;
  tracks : list string;
  prizes : list string;
  rules : string;
  created_at : Z }.
End Event.

Module EventCreate.
Record t := mk {
  title : string;
  description : string;
  start_date : Z;
  end_date : Z;
  submission_deadline : Z;
  max_team_size : Z;
  tracks : list string;
  prizes : list string;
  rules : string }.
End EventCreate.

Module Team.
Record t := mk {
  id : string;
  name : string;
  event_id : string;
  leader_id : string;
  members : list string;
  created_at : Z }.
End Team.

Module TeamCreate.
Record t := mk { name : string; event_id : string }.
End TeamCreate.

Module Submission.
Record t := mk {
  id : string;
  team_id : string;
  event_id : string;
  title : string;
  description : string;
  github_url : option string;
  demo_url : option string;
  video_url : option string;
  submitted_at : Z }.
End Submission.

Module SubmissionCreate.
Record t := mk {
  title : string;
  description : string;
  github_url : option string;
  demo_url : option string;
  video_url : option string }.
End SubmissionCreate.

(** ** The database *)

(** A document of [db.users]: the fields of [user.dict()] and the
    ['password'] key [register] adds. *)
Module UserDoc.
Record t := mk { user : User.t; password : string }.
End UserDoc.

Record DB := mkDB {
  users : list UserDoc.t;
  events : list Event.t;
  teams : list Team.t;
  submissions : list Submission.t }.

Definition empty_db : DB := mkDB [] [] [] [].

(** [collection.find_one(filter)]: the first document that matches. *)
Definition find_one {A : Type} (p : A → bool) (l : list A) : option A :=
  List.find p l.

(** [collection.find(filter).to_list(n)]. *)
Definition find_to_list {A : Type} (p : A → bool) (n : nat) (l : list A) : list A :=
  take n (List.filter p l).

(** [collection.update_one(filter, {"$set": ...})]: only the first
    document that matches is rewritten. *)
Fixpoint update_one {A : Type} (p : A → bool) (f : A → A) (l : list A) : list A :=
  match l with
  | [] => []
  | x :: l' => if p x then f x :: l' else x :: update_one p f l'
  end.

(** ** Errors and the handler monad *)

Record HTTPException := mkHTTP { status_code : Z; detail : string }.

Inductive result (A : Type) :=
| Ok (a : A)
| Raise (e : HTTPException).
Arguments Ok {A} a.
Arguments Raise {A} e.

Definition M (A : Type) : Type := DB → result A * DB.

Definition ret {A} (a : A) : M A := λ db, (Ok a, db).
Definition raise {A} (e : HTTPException) : M A := λ db, (Raise e, db).
Definition bind {A B} (c : M A) (k : A → M B) : M B :=
  λ db, match c db with
        | (Ok a, db') => k a db'
        | (Raise e, db') => (Raise e, db')
        end.
Definition query {A} (q : DB → A) : M A := λ db, (Ok (q db), db).
Definition write (w : DB → DB) : M unit := λ db, (Ok tt, w db).

Notation "x <~ c ;; k" := (bind c (λ x, k))
  (at level 100, c at next level, right associativity).
Notation "c ;;; k" := (bind c (λ _, k))
  (at level 100, right associativity).

(** ** JSON values, dictionaries and tokens *)

Inductive Value :=
| VStr (s : string)
| VBool (b : bool)
| VInt (z : Z)
| VDatetime (t : Z).

Global Instance Value_eq_dec : EqDecision Value.
Proof. solve_decision. Defined.

(** Python truthiness, as [if not user_id] uses it. *)
Definition truthy (o : option Value) : bool :=
  match o with
  | None => false
  | Some (VStr s) => negb (bool_decide (s = ""))
  | Some (VBool b) => b
  | Some (VInt z) => negb (z =? 0)%Z
  | Some (VDatetime _) => true
  end.

(** A compact JWS, symbolically: either a string that does not parse, or a
    header algorithm, the key the signature was made with, and the claims. *)
Inductive Token :=
| Malformed (raw : string)
| JWS (alg : string) (key : string) (claims : gmap string Value).

(** The exceptions of [jwt.decode]; all of them are [InvalidTokenError]s,
    [ExpiredSignatureError] being the subclass the first handler catches. *)
Inductive JwtError :=
| ExpiredSignatureError
| InvalidSignatureError
| InvalidAlgorithmError
| DecodeError
| ImmatureSignatureError
| InvalidIssuedAtError
| InvalidAudienceError
| InvalidSubjectError
| InvalidJTIError.

(** [jwt.encode(payload, key, algorithm)]: a [datetime] under ['exp'] is
    replaced by its integer timestamp before signing. *)
Definition jwt_encode (payload : gmap string Value) (key alg : string) : Token :=
  JWS alg key
    (match payload !! "exp" with
     | Some (VDatetime t) => <["exp" := VInt t]> payload
     | _ => payload
     end).

(** [int(value)] on the value of a time claim: an integer is itself, [True]
    and [False] count as 1 and 0, and a string is read by [int_of_str], the
    reading of [int] on a [str] ([None] where [int] raises [ValueError]).
    The values of a decoded token are strings, booleans and integers. *)
Definition python_int (int_of_str : string → option Z) (value : Value) : option Z :=
  match value with
  | VInt z => Some z
  | VBool b => Some (if b then 1 else 0)
  | VStr s => int_of_str s
  | VDatetime _ => None
  end.

Definition is_str (value : Value) : bool :=
  match value with VStr _ => true | _ => false end.

(** The checks of PyJWT on the registered claims, with its default options
    and no expected audience, issuer or subject: a claim that is absent is
    not checked. *)
Definition validate_iat (int_of_str : string → option Z) (now : Z)
    (claims : gmap string Value) : option JwtError :=
  match claims !! "iat" with
  | None => None
  | Some value =>
      match python_int int_of_str value with
      | None => Some InvalidIssuedAtError
      | Some iat => if (now <? iat)%Z then Some ImmatureSignatureError else None
      end
  end.

Definition validate_nbf (int_of_str : string → option Z) (now : Z)
    (claims : gmap string Value) : option JwtError :=
  match claims !! "nbf" with
  | None => None
  | Some value =>
      match python_int int_of_str value with
      | None => Some DecodeError
      | Some nbf => if (now <? nbf)%Z then Some ImmatureSignatureError else None
      end
  end.

Definition validate_exp (int_of_str : string → option Z) (now : Z)
    (claims : gmap string Value) : option JwtError :=
  match claims !! "exp" with
  | None => None
  | Some value =>
      match python_int int_of_str value with
      | None => Some DecodeError
      | Some exp => if (exp <=? now)%Z then Some ExpiredSignatureError else None
      end
  end.

Definition validate_aud (claims : gmap string Value) : option JwtError :=
  if truthy (claims !! "aud") then Some InvalidAudienceError else None.

Definition validate_sub (claims : gmap string Value) : option JwtError :=
  match claims !! "sub" with
  | None => None
  | Some value => if is_str value then None else Some InvalidSubjectError
  end.

Definition validate_jti (claims : gmap string Value) : option JwtError :=
  match claims !! "jti" with
  | None => None
  | Some value => if is_str value then None else Some InvalidJTIError
  end.

(** The first check that fails, in the order PyJWT runs them. *)
Definition validate_claims (int_of_str : string → option Z) (now : Z)
    (claims : gmap string Value) : option JwtError :=
  match validate_iat int_of_str now claims with
  | Some e => Some e
  | None =>
  match validate_nbf int_of_str now claims with
  | Some e => Some e
  | None =>
  match validate_exp int_of_str now claims with
  | Some e => Some e
  | None =>
  match validate_aud claims with
  | Some e => Some e
  | None =>
  match validate_sub claims with
  | Some e => Some e
  | None => validate_jti claims
  end end end end end.

(** [jwt.decode(token, key, algorithms)] at clock [now]: structure, then
    algorithm, then signature, then the registered claims. *)
Definition jwt_decode (int_of_str : string → option Z) (now : Z) (token : Token)
    (key : string) (algorithms : list string) : JwtError + gmap string Value :=
  match token with
  | Malformed _ => inl DecodeError
  | JWS alg k claims =>
      if negb (bool_decide (alg ∈ algorithms)) then inl InvalidAlgorithmError
      else if negb (bool_decide (k = key)) then inl InvalidSignatureError
      else match validate_claims int_of_str now claims with
           | Some e => inl e
           | None => inr claims
           end
  end.

Definition JWT_ALGORITHM : string := "HS256".
Definition JWT_EXPIRATION_HOURS : Z := 24.

(** [timedelta(hours=h)] in seconds. *)
Definition timedelta_hours (h : Z) : Z := h * 3600.

Definition HTTP_401 (d : string) : HTTPException := mkHTTP 401 d.
Definition HTTP_403 (d : string) : HTTPException := mkHTTP 403 d.
Definition HTTP_404 (d : string) : HTTPException := mkHTTP 404 d.
Definition HTTP_400 (d : string) : HTTPException := mkHTTP 400 d.

(** What the transport answers when a handler ends in an exception that is
    no [HTTPException]. *)
Definition internal_server_error : HTTPException := mkHTTP 500 "Internal Server Error".

(** The integers BSON encodes: [insert_one] raises [OverflowError] on a
    document with an [int] beyond 8 bytes, before anything is stored. *)
Definition bson_int (z : Z) : bool := (- 2 ^ 63 <=? z)%Z && (z <? 2 ^ 63)%Z.

(** [user.dict()] *)
Definition user_dict (u : User.t) : gmap string Value :=
  list_to_map
    [ ("id", VStr (User.id u));
      ("email", VStr (User.email u));
      ("name", VStr (User.name u));
      ("role", VStr (role_value (User.role u)));
      ("created_at", VDatetime (User.created_at u));
      ("is_active", VBool (User.is_active u)) ].

(** The [UserResponse] built from the fields of [user.dict()]. *)
Definition user_response (u : User.t) : UserResponse.t :=
  UserResponse.mk (User.id u) (User.email u) (User.name u)
    (role_value (User.role u)) (User.created_at u).

Module LoginResponse.
Record t := mk { access_token : Token; token_type : string; user : UserResponse.t }.
End LoginResponse.

(** Writes to the collections: [insert_one] appends, [update_one] rewrites. *)
Definition insert_user (d : UserDoc.t) (db : DB) : DB :=
  mkDB (users db ++ [d]) (events db) (teams db) (submissions db).
Definition insert_event (e : Event.t) (db : DB) : DB :=
  mkDB (users db) (events db ++ [e]) (teams db) (submissions db).
Definition insert_team (t : Team.t) (db : DB) : DB :=
  mkDB (users db) (events db) (teams db ++ [t]) (submissions db).
Definition insert_submission (s : Submission.t) (db : DB) : DB :=
  mkDB (users db) (events db) (teams db) (submissions db ++ [s]).

Definition set_status (s : EventStatus) (e : Event.t) : Event.t :=
  Event.mk (Event.id e) (Event.title e) (Event.description e) (Event.organizer_id e)
    s (Event.start_date e) (Event.end_date e) (Event.submission_deadline e)
    (Event.max_team_size e) (Event.tracks e) (Event.prizes e) (Event.rules e)
    (Event.created_at e).

Definition update_event (p : Event.t → bool) (f : Event.t → Event.t) (db : DB) : DB :=
  mkDB (users db) (update_one p f (events db)) (teams db) (submissions db).

(** The Mongo filter [{"event_id": e, "$or": [{"leader_id": u}, {"members": u}]}]
    and its part without the event, on one team document. *)
Definition leads_or_member (u : string) (t : Team.t) : bool :=
  bool_decide (Team.leader_id t = u) || bool_decide (u ∈ Team.members t).

Definition on_team_of_event (ev u : string) (t : Team.t) : bool :=
  bool_decide (Team.event_id t = ev) && leads_or_member u t.

(** [try: ... except Exception: raise e] around a handler: every exception
    raised inside, [HTTPException] included, is replaced by [e]. *)
Definition try_except_Exception {A} (c : M A) (e : HTTPException) : M A :=
  λ db, match c db with
        | (Ok a, db') => (Ok a, db')
        | (Raise _, db') => (Raise e, db')
        end.

(** ** Handlers with their awaits kept apart

    A handler is a coroutine: between two [await]s on the database it runs
    alone, and at each [await] on a collection other requests may run.  A
    process is what is left of a handler: its answer, or an awaited read
    whose continuation sees the database as it is then, or an awaited write. *)

Inductive Proc (A : Type) : Type :=
| Finish (r : result A)
| Await_read (k : DB → Proc A)
| Await_write (w : DB → DB) (k : Proc A).
Arguments Finish {A} r.
Arguments Await_read {A} k.
Arguments Await_write {A} w k.

Definition aret {A} (a : A) : Proc A := Finish (Ok a).
Definition araise {A} (e : HTTPException) : Proc A := Finish (Raise e).
Definition aquery {A} (q : DB → A) : Proc A := Await_read (λ db, Finish (Ok (q db))).
Definition awrite (w : DB → DB) : Proc unit := Await_write w (Finish (Ok tt)).

Fixpoint abind {A B} (c : Proc A) (f : A → Proc B) : Proc B :=
  match c with
  | Finish (Ok a) => f a
  | Finish (Raise e) => Finish (Raise e)
  | Await_read k => Await_read (λ db, abind (k db) f)
  | Await_write w k => Await_write w (abind k f)
  end.

Declare Scope proc_scope.
Delimit Scope proc_scope with proc.
Notation "x <~ c ;; k" := (abind c (λ x, k))
  (at level 100, c at next level, right associativity) : proc_scope.
Notation "c ;;; k" := (abind c (λ _, k))
  (at level 100, right associativity) : proc_scope.

(** [try: ... except Exception: raise e] around a process. *)
Fixpoint atry_except_Exception {A} (c : Proc A) (e : HTTPException) : Proc A :=
  match c with
  | Finish (Ok a) => Finish (Ok a)
  | Finish (Raise _) => Finish (Raise e)
  | Await_read k => Await_read (λ db, atry_except_Exception (k db) e)
  | Await_write w k => Await_write w (atry_except_Exception k e)
  end.

(** A process run from its first to its last step with no other request in
    between. *)
Fixpoint run_proc {A} (c : Proc A) (db : DB) : result A * DB :=
  match c with
  | Finish r => (r, db)
  | Await_read k => run_proc (k db) db
  | Await_write w k => run_proc k (w db)
  end.

(** [preserves I c]: started in a database where [I] holds, and whatever
    other writes that keep [I] happen at its awaits, the process [c] only
    performs writes that keep [I]. *)
Inductive preserves {A} (I : DB → Prop) : Proc A → Prop :=
| preserves_finish (r : result A) : preserves I (Finish r)
| preserves_read (k : DB → Proc A) :
    (∀ db, I db → preserves I (k db)) → preserves I (Await_read k)
| preserves_write (w : DB → DB) (k : Proc A) :
    (∀ db, I db → I (w db)) → preserves I k → preserves I (Await_write w k).

(** ** Requests and responses *)

Inductive Request :=
| POST_auth_register (user_data : UserCreate.t) (new_id salt : string)
| POST_auth_login (login_data : UserLogin.t)
| GET_auth_me (credentials : Token)
| POST_events (credentials : Token) (event_data : EventCreate.t) (new_id : string)
| GET_events
| GET_events_id (event_id : string)
| GET_events_my_organized (credentials : Token)
| PUT_events_status (credentials : Token) (event_id : string) (status : EventStatus)
| POST_teams (credentials : Token) (team_data : TeamCreate.t) (new_id : string)
| GET_teams_my (credentials : Token)
| POST_submissions (credentials : Token) (submission_data : SubmissionCreate.t)
    (team_id new_id : string)
| GET_submissions_team (credentials : Token) (team_id : string).

Inductive Response :=
| RUser (u : UserResponse.t)
| RLogin (r : LoginResponse.t)
| REvent (e : Event.t)
| REvents (l : list Event.t)
| RMessage (message : string)
| RTeam (t : Team.t)
| RTeams (l : list Team.t)
| RSubmission (s : Submission.t)
| ROptSubmission (s : option Submission.t).

(** What happens at the server: a request arrives and its handler is
    started, or the pending handler at some position of the pool is resumed
    for one step. *)
Inductive Action :=
| Arrive (now : Z) (req : Request)
| Resume (i : nat).

(** The id [uuid.uuid4()] draws for the document a request creates. *)
Definition request_id (req : Request) : option string :=
  match req with
  | POST_auth_register _ new_id _ | POST_events _ _ new_id
  | POST_teams _ _ new_id | POST_submissions _ _ _ new_id => Some new_id
  | _ => None
  end.

(** ** Example data

    Stand-ins for the configuration and the library functions, two
    registered identities, the tokens [login] issues for them, and the
    requests of a small competition. *)

Definition demo_secret : string := "demo-secret".
Definition demo_isoformat (t : Z) : string := "1970-01-01T00:00:00".
Definition demo_hashpw (password salt : string) : string := "$2b$" +:+ password.
Definition demo_checkpw (password hashed : string) : bool :=
  bool_decide (hashed = "$2b$" +:+ password).

(** A stand-in for [int] on a string: it reads plain decimal numerals. *)
Definition demo_int (s : string) : option Z :=
  if bool_decide (s = "") then None
  else option_map Z.of_int (NilEmpty.int_of_string s).

Definition olga : User.t := User.mk "u-org" "o@x.com" "Olga" ORGANIZER 1 true.
Definition pat : User.t := User.mk "u-par" "p@x.com" "Pat" PARTICIPANT 2 true.
Definition dana : User.t := User.mk "u-off" "d@x.com" "Dana" PARTICIPANT 3 false.

(** The claims of the token issued at time [issued] for [u], and the token
    under [demo_secret]. *)
Definition demo_claims (u : User.t) (issued : Z) : gmap string Value :=
  list_to_map
    [ ("id", VStr (User.id u));
      ("email", VStr (User.email u));
      ("name", VStr (User.name u));
      ("role", VStr (role_value (User.role u)));
      ("created_at", VStr (demo_isoformat (User.created_at u)));
      ("is_active", VBool (User.is_active u));
      ("exp", VInt (issued + 86400)) ].

Definition demo_token (u : User.t) (issued : Z) : Token :=
  JWS "HS256" demo_secret (demo_claims u issued).

(** A token signed with another key, and a string that is no token. *)
Definition forged_token : Token :=
  JWS "HS256" "another-key"
    (list_to_map [ ("id", VStr "u-org"); ("role", VStr "organizer");
                   ("exp", VInt 1000000) ]).
Definition garbage_token : Token := Malformed "not.a.token".

Definition demo_event_data : EventCreate.t :=
  EventCreate.mk "Hack" "A hackathon" 100 200 150 4 [] [] "".
Definition demo_submission_data : SubmissionCreate.t :=
  SubmissionCreate.mk "Project" "Our entry" None None None.

(** Both identities register. *)
Definition registrations : list (Z * Request) :=
  [ (1, POST_auth_register (UserCreate.mk "o@x.com" "Olga" "pw1" ORGANIZER) "u-org" "s1");
    (2, POST_auth_register (UserCreate.mk "p@x.com" "Pat" "pw2" PARTICIPANT) "u-par" "s2") ].

Definition db_registered : DB :=
  mkDB [ UserDoc.mk olga "$2b$pw1"; UserDoc.mk pat "$2b$pw2" ] [] [] [].

(** The organizer creates an event and opens it. *)
Definition opening : list (Z * Request) :=
  [ (20, POST_events (demo_token olga 10) demo_event_data "e-1");
    (30, PUT_events_status (demo_token olga 10) "e-1" ACTIVE) ].

(** The participant forms a team and submits, and the organizer closes the
    submissions. *)
Definition competition : list (Z * Request) :=
  [ (40, POST_teams (demo_token pat 11) (TeamCreate.mk "Team" "e-1") "t-1");
    (50, PUT_events_status (demo_token olga 10) "e-1" SUBMISSIONS_OPEN);
    (60, POST_submissions (demo_token pat 11) demo_submission_data "t-1" "s-1");
    (70, PUT_events_status (demo_token olga 10) "e-1" SUBMISSIONS_CLOSED) ].

Definition demo_event (status : EventStatus) : Event.t :=
  Event.mk "e-1" "Hack" "A hackathon" "u-org" status 100 200 150 4 [] [] "" 20.
Definition demo_team : Team.t := Team.mk "t-1" "Team" "e-1" "u-par" ["u-par"] 40.
Definition demo_submission : Submission.t :=
  Submission.mk "s-1" "t-1" "e-1" "Project" "Our entry" None None None 60.

Definition db_closed : DB :=
  mkDB [ UserDoc.mk olga "$2b$pw1"; UserDoc.mk pat "$2b$pw2" ]
       [ demo_event SUBMISSIONS_CLOSED ] [ demo_team ] [ demo_submission ].

(** The database after [opening], and the same with a [max_team_size] of 0. *)
Definition db_active : DB :=
  mkDB [ UserDoc.mk olga "$2b$pw1"; UserDoc.mk pat "$2b$pw2" ]
       [ demo_event ACTIVE ] [] [].

Definition db_active_no_room : DB :=
  mkDB [ UserDoc.mk olga "$2b$pw1"; UserDoc.mk pat "$2b$pw2" ]
       [ Event.mk "e-1" "Hack" "A hackathon" "u-org" ACTIVE 100 200 150 0 [] [] "" 20 ]
       [] [].

(** A database in which an account has been deactivated. *)
Definition db_deactivated : DB := mkDB [ UserDoc.mk dana "$2b$pw3" ] [] [] [].

(** The store once the team is formed and the submissions are open, and the
    requests that lead there from [db_active]. *)
Definition team_formed : list (Z * Request) :=
  [ (40, POST_teams (demo_token pat 11) (TeamCreate.mk "Team" "e-1") "t-1");
    (50, PUT_events_status (demo_token olga 10) "e-1" SUBMISSIONS_OPEN) ].

Definition db_team_formed : DB :=
  mkDB [ UserDoc.mk olga "$2b$pw1"; UserDoc.mk pat "$2b$pw2" ]
       [ demo_event SUBMISSIONS_OPEN ] [ demo_team ] [].

(** The store when the organizer opens the submissions before any team
    exists. *)
Definition opened_early : list (Z * Request) :=
  [ (35, PUT_events_status (demo_token olga 10) "e-1" SUBMISSIONS_OPEN) ].

Definition db_opened_early : DB :=
  mkDB [ UserDoc.mk olga "$2b$pw1"; UserDoc.mk pat "$2b$pw2" ]
       [ demo_event SUBMISSIONS_OPEN ] [] [].

(** Two team creations by Pat for event e-1, both started before either
    inserts: each handler runs its three lookups, then each inserts, then
    each answers.  Run from [db_active], they leave [db_two_teams]. *)
Definition racing_teams : list Action :=
  [ Arrive 40 (POST_teams (demo_token pat 11) (TeamCreate.mk "Team" "e-1") "t-1");
    Arrive 41 (POST_teams (demo_token pat 11) (TeamCreate.mk "Other" "e-1") "t-2");
    Resume 0; Resume 0; Resume 0;
    Resume 1; Resume 1; Resume 1;
    Resume 0; Resume 1;
    Resume 0; Resume 0 ].

Definition db_two_teams : DB :=
  mkDB [ UserDoc.mk olga "$2b$pw1"; UserDoc.mk pat "$2b$pw2" ]
       [ demo_event ACTIVE ]
       [ demo_team; Team.mk "t-2" "Other" "e-1" "u-par" ["u-par"] 41 ] [].

(** Two submissions by Pat for team t-1, both started before either
    inserts: four lookups each, then the two inserts, then the answers.  Run
    from [db_team_formed], they leave [db_two_submissions]. *)
Definition racing_submissions : list Action :=
  [ Arrive 60 (POST_submissions (demo_token pat 11) demo_submission_data "t-1" "s-1");
    Arrive 61 (POST_submissions (demo_token pat 11) demo_submission_data "t-1" "s-2");
    Resume 0; Resume 0; Resume 0; Resume 0;
    Resume 1; Resume 1; Resume 1; Resume 1;
    Resume 0; Resume 1;
    Resume 0; Resume 0 ].

Definition db_two_submissions : DB :=
  mkDB [ UserDoc.mk olga "$2b$pw1"; UserDoc.mk pat "$2b$pw2" ]
       [ demo_event SUBMISSIONS_OPEN ] [ demo_team ]
       [ demo_submission;
         Submission.mk "s-2" "t-1" "e-1" "Project" "Our entry" None None None 61 ].

(** Two registrations of one email, both started before either inserts.
    Run from the empty store, they leave [db_one_email_twice]. *)
Definition racing_registrations : list Action :=
  [ Arrive 1 (POST_auth_register (UserCreate.mk "o@x.com" "Olga" "pw1" ORGANIZER)
                                 "u-org" "s1");
    Arrive 2 (POST_auth_register (UserCreate.mk "o@x.com" "Otto" "pw9" JUDGE)
                                 "u-two" "s9");
    Resume 0; Resume 1;
    Resume 0; Resume 1;
    Resume 0; Resume 0 ].

Definition db_one_email_twice : DB :=
  mkDB [ UserDoc.mk olga "$2b$pw1";
         UserDoc.mk (User.mk "u-two" "o@x.com" "Otto" JUDGE 2 true) "$2b$pw9" ]
       [] [] [].

(** A token for Pat's id, signed with the server secret, whose role claim
    says organizer. *)
Definition role_claim_token : Token :=
  JWS "HS256" demo_secret
    (list_to_map [ ("id", VStr "u-par"); ("role", VStr "organizer");
                   ("exp", VInt 86411) ]).

Section Server.

(** Process-wide configuration and the library functions the handlers call:
    [datetime.isoformat], [bcrypt.hashpw] and [bcrypt.checkpw], and the
    builtin [int] on a string. *)
Variable JWT_SECRET : string.
Variable isoformat : Z → string.
Variable bcrypt_hashpw : string → string → string.
Variable bcrypt_checkpw : string → string → bool.
Variable int_of_str : string → option Z.

Definition hash_password (password salt : string) : string :=
  bcrypt_hashpw password salt.

Definition verify_password (password hashed : string) : bool :=
  bcrypt_checkpw password hashed.

(** One step of the loop that makes the user data JSON-serializable. *)
Definition serializable (value : Value) : Value :=
  match value with
  | VDatetime t => VStr (isoformat t)
  | _ => value
  end.

Definition create_jwt_token (now : Z) (user_data : gmap string Value) : Token :=
  let serializable_data := serializable <$> user_data in
  let payload :=
    <["exp" := VDatetime (now + timedelta_hours JWT_EXPIRATION_HOURS)]> serializable_data in
  jwt_encode payload JWT_SECRET JWT_ALGORITHM.

Definition decode_jwt_token (now : Z) (token : Token) : result (gmap string Value) :=
  match jwt_decode int_of_str now token JWT_SECRET [JWT_ALGORITHM] with
  | inr payload => Ok payload
  | inl ExpiredSignatureError => Raise (HTTP_401 "Token expired")
  | inl _ => Raise (HTTP_401 "Invalid token")
  end.

(** The body of the [try] block of [get_current_user]. *)
Definition get_current_user_try (now : Z) (credentials : Token) : M User.t :=
  payload <~ (λ db, (decode_jwt_token now credentials, db)) ;;
  let user_id := payload !! "id" in
  if negb (truthy user_id) then raise (HTTP_401 "Invalid token")
  else
    user_data <~ query (λ db,
      find_one (λ d, bool_decide (user_id = Some (VStr (User.id (UserDoc.user d)))))
               (users db)) ;;
    match user_data with
    | None => raise (HTTP_401 "User not found")
    | Some d => ret (UserDoc.user d)
    end.

Definition get_current_user (now : Z) (credentials : Token) : M User.t :=
  try_except_Exception (get_current_user_try now credentials)
                       (HTTP_401 "Invalid authentication").

(** The filter [{"id": user_id}] on a user document, and the exception of
    the [except] clause, named for the statements below. *)
Definition by_id (user_id : option Value) (d : UserDoc.t) : bool :=
  bool_decide (user_id = Some (VStr (User.id (UserDoc.user d)))).

Definition invalid_authentication : HTTPException := HTTP_401 "Invalid authentication".

Definition role_checker (required_roles : list UserRole) (current_user : User.t)
  : M User.t :=
  if negb (bool_decide (User.role current_user ∈ required_roles))
  then raise (HTTP_403 "Insufficient permissions")
  else ret current_user.

(** The dependency [Depends(require_role(required_roles))], resolved from the
    bearer credentials of the request. *)
Definition require_role (required_roles : list UserRole) (now : Z) (credentials : Token)
  : M User.t :=
  current_user <~ get_current_user now credentials ;;
  role_checker required_roles current_user.

(** *** Authentication routes *)

Definition register (user_data : UserCreate.t) (new_id : string) (now : Z) (salt : string)
  : M UserResponse.t :=
  existing_user <~ query (λ db,
    find_one (λ d, bool_decide (User.email (UserDoc.user d) = UserCreate.email user_data))
             (users db)) ;;
  match existing_user with
  | Some _ => raise (HTTP_400 "Email already registered")
  | None =>
      let hashed_password := hash_password (UserCreate.password user_data) salt in
      let user := User.mk new_id (UserCreate.email user_data) (UserCreate.name user_data)
                          (UserCreate.role user_data) now true in
      write (insert_user (UserDoc.mk user hashed_password)) ;;;
      ret (user_response user)
  end.

Definition login (login_data : UserLogin.t) (now : Z) : M LoginResponse.t :=
  user_data <~ query (λ db,
    find_one (λ d, bool_decide (User.email (UserDoc.user d) = UserLogin.email login_data))
             (users db)) ;;
  match user_data with
  | None => raise (HTTP_401 "Invalid credentials")
  | Some d =>
      if negb (verify_password (UserLogin.password login_data) (UserDoc.password d))
      then raise (HTTP_401 "Invalid credentials")
      else
        let user := UserDoc.user d in
        let token := create_jwt_token now (user_dict user) in
        ret (LoginResponse.mk token "bearer" (user_response user))
  end.

Definition get_current_user_info (current_user : User.t) : M UserResponse.t :=
  ret (user_response current_user).

(** *** Event routes *)

Definition create_event (event_data : EventCreate.t) (current_user : User.t)
    (new_id : string) (now : Z) : M Event.t :=
  let event :=
    Event.mk new_id (EventCreate.title event_data) (EventCreate.description event_data)
      (User.id current_user) DRAFT
      (EventCreate.start_date event_data) (EventCreate.end_date event_data)
      (EventCreate.submission_deadline event_data) (EventCreate.max_team_size event_data)
      (EventCreate.tracks event_data) (EventCreate.prizes event_data)
      (EventCreate.rules event_data) now in
  if bson_int (Event.max_team_size event)
  then write (insert_event event) ;;; ret event
  else raise internal_server_error.

Definition get_events : M (list Event.t) :=
  query (λ db,
    find_to_list (λ e, negb (bool_decide (Event.status e = DRAFT))) 1000 (events db)).

Definition get_event (event_id : string) : M Event.t :=
  event_data <~ query (λ db,
    find_one (λ e, bool_decide (Event.id e = event_id)) (events db)) ;;
  match event_data with
  | None => raise (HTTP_404 "Event not found")
  | Some e => ret e
  end.

Definition get_my_events (current_user : User.t) : M (list Event.t) :=
  query (λ db,
    find_to_list (λ e, bool_decide (Event.organizer_id e = User.id current_user))
                 1000 (events db)).

Definition update_event_status (event_id : string) (status : EventStatus)
    (current_user : User.t) : M string :=
  event <~ query (λ db,
    find_one (λ e, bool_decide (Event.id e = event_id)
                   && bool_decide (Event.organizer_id e = User.id current_user))
             (events db)) ;;
  match event with
  | None => raise (HTTP_404 "Event not found or unauthorized")
  | Some _ =>
      write (update_event (λ e, bool_decide (Event.id e = event_id)) (set_status status)) ;;;
      ret "Event status updated successfully"
  end.

(** *** Team routes *)

Definition create_team (team_data : TeamCreate.t) (current_user : User.t)
    (new_id : string) (now : Z) : M Team.t :=
  event <~ query (λ db,
    find_one (λ e, bool_decide (Event.id e = TeamCreate.event_id team_data)) (events db)) ;;
  if match event with
     | None => true
     | Some e => negb (bool_decide (Event.status e ∈ [ACTIVE; SUBMISSIONS_OPEN]))
     end
  then raise (HTTP_400 "Event not available for registration")
  else
    existing_team <~ query (λ db,
      find_one (on_team_of_event (TeamCreate.event_id team_data) (User.id current_user))
               (teams db)) ;;
    match existing_team with
    | Some _ => raise (HTTP_400 "Already part of a team for this event")
    | None =>
        let team := Team.mk new_id (TeamCreate.name team_data)
                            (TeamCreate.event_id team_data)
                            (User.id current_user) [User.id current_user] now in
        write (insert_team team) ;;;
        ret team
    end.

Definition get_my_teams (current_user : User.t) : M (list Team.t) :=
  query (λ db, find_to_list (leads_or_member (User.id current_user)) 1000 (teams db)).

(** *** Submission routes *)

Definition create_submission (submission_data : SubmissionCreate.t) (team_id : string)
    (current_user : User.t) (new_id : string) (now : Z) : M Submission.t :=
  team <~ query (λ db, find_one (λ t, bool_decide (Team.id t = team_id)) (teams db)) ;;
  match team with
  | None => raise (HTTP_403 "Not a member of this team")
  | Some team =>
      if negb (bool_decide (User.id current_user ∈ Team.members team))
      then raise (HTTP_403 "Not a member of this team")
      else
        event <~ query (λ db,
          find_one (λ e, bool_decide (Event.id e = Team.event_id team)) (events db)) ;;
        if match event with
           | None => true
           | Some e => negb (bool_decide (Event.status e ∈ [SUBMISSIONS_OPEN]))
           end
        then raise (HTTP_400 "Submissions not open for this event")
        else
          existing <~ query (λ db,
            find_one (λ s, bool_decide (Submission.team_id s = team_id)
                           && bool_decide (Submission.event_id s = Team.event_id team))
                     (submissions db)) ;;
          match existing with
          | Some _ => raise (HTTP_400 "Submission already exists for this team")
          | None =>
              let submission :=
                Submission.mk new_id team_id (Team.event_id team)
                  (SubmissionCreate.title submission_data)
                  (SubmissionCreate.description submission_data)
                  (SubmissionCreate.github_url submission_data)
                  (SubmissionCreate.demo_url submission_data)
                  (SubmissionCreate.video_url submission_data) now in
              write (insert_submission submission) ;;;
              ret submission
          end
  end.

Definition get_team_submission (team_id : string) (current_user : User.t)
  : M (option Submission.t) :=
  query (λ db, find_one (λ s, bool_decide (Submission.team_id s = team_id)) (submissions db)).

(** *** The routes: a handler behind its [Depends(...)] dependencies *)

Definition route_get_current_user_info (now : Z) (credentials : Token) : M UserResponse.t :=
  current_user <~ get_current_user now credentials ;;
  get_current_user_info current_user.

Definition route_create_event (now : Z) (credentials : Token) (event_data : EventCreate.t)
    (new_id : string) : M Event.t :=
  current_user <~ require_role [ORGANIZER] now credentials ;;
  create_event event_data current_user new_id now.

Definition route_get_my_events (now : Z) (credentials : Token) : M (list Event.t) :=
  current_user <~ require_role [ORGANIZER] now credentials ;;
  get_my_events current_user.

Definition route_update_event_status (now : Z) (credentials : Token) (event_id : string)
    (status : EventStatus) : M string :=
  current_user <~ require_role [ORGANIZER] now credentials ;;
  update_event_status event_id status current_user.

Definition route_create_team (now : Z) (credentials : Token) (team_data : TeamCreate.t)
    (new_id : string) : M Team.t :=
  current_user <~ require_role [PARTICIPANT] now credentials ;;
  create_team team_data current_user new_id now.

Definition route_get_my_teams (now : Z) (credentials : Token) : M (list Team.t) :=
  current_user <~ require_role [PARTICIPANT] now credentials ;;
  get_my_teams current_user.

Definition route_create_submission (now : Z) (credentials : Token)
    (submission_data : SubmissionCreate.t) (team_id new_id : string) : M Submission.t :=
  current_user <~ require_role [PARTICIPANT] now credentials ;;
  create_submission submission_data team_id current_user new_id now.

Definition route_get_team_submission (now : Z) (credentials : Token) (team_id : string)
  : M (option Submission.t) :=
  current_user <~ get_current_user now credentials ;;
  get_team_submission team_id current_user.

(** *** The runs of the server *)

Definition respond {A} (f : A → Response) (c : M A) : M Response :=
  a <~ c ;; ret (f a).

Definition handle (now : Z) (req : Request) : M Response :=
  match req with
  | POST_auth_register user_data new_id salt =>
      respond RUser (register user_data new_id now salt)
  | POST_auth_login login_data => respond RLogin (login login_data now)
  | GET_auth_me credentials => respond RUser (route_get_current_user_info now credentials)
  | POST_events credentials event_data new_id =>
      respond REvent (route_create_event now credentials event_data new_id)
  | GET_events => respond REvents get_events
  | GET_events_id event_id => respond REvent (get_event event_id)
  | GET_events_my_organized credentials =>
      respond REvents (route_get_my_events now credentials)
  | PUT_events_status credentials event_id status =>
      respond RMessage (route_update_event_status now credentials event_id status)
  | POST_teams credentials team_data new_id =>
      respond RTeam (route_create_team now credentials team_data new_id)
  | GET_teams_my credentials => respond RTeams (route_get_my_teams now credentials)
  | POST_submissions credentials submission_data team_id new_id =>
      respond RSubmission
        (route_create_submission now credentials submission_data team_id new_id)
  | GET_submissions_team credentials team_id =>
      respond ROptSubmission (route_get_team_submission now credentials team_id)
  end.

(** The database after a request. *)
Definition exec (now : Z) (req : Request) (db : DB) : DB := snd (handle now req db).

(** What [uuid.uuid4()] is taken to deliver to the request that draws an id:
    a non-empty string no document of the collection carries yet. *)
Definition uuid4_fresh (req : Request) (db : DB) : bool :=
  match req with
  | POST_auth_register _ new_id _ =>
      negb (bool_decide (new_id = ""))
      && negb (bool_decide (new_id ∈ (User.id ∘ UserDoc.user) <$> users db))
  | POST_events _ _ new_id =>
      negb (bool_decide (new_id = ""))
      && negb (bool_decide (new_id ∈ Event.id <$> events db))
  | POST_teams _ _ new_id =>
      negb (bool_decide (new_id = ""))
      && negb (bool_decide (new_id ∈ Team.id <$> teams db))
  | POST_submissions _ _ _ new_id =>
      negb (bool_decide (new_id = ""))
      && negb (bool_decide (new_id ∈ Submission.id <$> submissions db))
  | _ => true
  end.

(** [reachable_from db0 db]: some sequence of requests, each of them handled
    from its first to its last step before the next one arrives, leads from
    [db0] to [db].  The stores the server reaches when handlers interleave
    at their awaits are those of [interleaved_from] below; they include
    these. *)
Inductive reachable_from (db0 : DB) : DB → Prop :=
| reach_refl : reachable_from db0 db0
| reach_step (db : DB) (now : Z) (req : Request) :
    reachable_from db0 db →
    uuid4_fresh req db = true →
    reachable_from db0 (exec now req db).

Definition reachable (db : DB) : Prop := reachable_from empty_db db.

(** A run of timed requests, [None] when a drawn id is not fresh. *)
Fixpoint run (reqs : list (Z * Request)) (db : DB) : option DB :=
  match reqs with
  | [] => Some db
  | (now, req) :: reqs' =>
      if uuid4_fresh req db then run reqs' (exec now req db) else None
  end.

(** ** Predicates of the claims *)

(** The teams of event [ev] that identity [u] leads or is a member of. *)
Definition teams_of (ev u : string) (db : DB) : list Team.t :=
  List.filter (on_team_of_event ev u) (teams db).

(** The submissions recorded for the pair (team, event). *)
Definition submissions_of (team_id ev : string) (db : DB) : list Submission.t :=
  List.filter (λ s, bool_decide (Submission.team_id s = team_id)
                    && bool_decide (Submission.event_id s = ev))
              (submissions db).

(** The event of id [ev] exists and its status is one of [allowed]. *)
Definition event_in_status (allowed : list EventStatus) (ev : string) (db : DB) : bool :=
  match find_one (λ e, bool_decide (Event.id e = ev)) (events db) with
  | Some e => bool_decide (Event.status e ∈ allowed)
  | None => false
  end.

(** Two events that differ at most in [max_team_size]. *)
Definition set_max_team_size (n : Z) (e : Event.t) : Event.t :=
  Event.mk (Event.id e) (Event.title e) (Event.description e) (Event.organizer_id e)
    (Event.status e) (Event.start_date e) (Event.end_date e) (Event.submission_deadline e)
    n (Event.tracks e) (Event.prizes e) (Event.rules e) (Event.created_at e).

Definition event_sim (e1 e2 : Event.t) : Prop :=
  set_max_team_size 0 e1 = set_max_team_size 0 e2.

Definition db_sim (db1 db2 : DB) : Prop :=
  users db1 = users db2 ∧ Forall2 event_sim (events db1) (events db2) ∧
  teams db1 = teams db2 ∧ submissions db1 = submissions db2.

Definition response_sim (r1 r2 : Response) : Prop :=
  match r1, r2 with
  | REvent e1, REvent e2 => event_sim e1 e2
  | REvents l1, REvents l2 => Forall2 event_sim l1 l2
  | _, _ => r1 = r2
  end.

Definition result_rel {A} (R : A → A → Prop) (r1 r2 : result A) : Prop :=
  match r1, r2 with
  | Ok a1, Ok a2 => R a1 a2
  | Raise e1, Raise e2 => e1 = e2
  | _, _ => False
  end.

Definition result_sim : result Response → result Response → Prop :=
  result_rel response_sim.

(** Two computations that, from similar databases, end in related results
    and similar databases. *)
Definition M_sim {A} (R : A → A → Prop) (c1 c2 : M A) : Prop :=
  ∀ db1 db2, db_sim db1 db2 →
    result_rel R (fst (c1 db1)) (fst (c2 db2)) ∧ db_sim (snd (c1 db1)) (snd (c2 db2)).

(** ** The effect of a request on the database *)

Inductive effect (now : Z) (db : DB) : Request → DB → Prop :=
| effect_none (req : Request) : effect now db req db
| effect_register (user_data : UserCreate.t) (new_id salt : string) :
    find_one (λ d, bool_decide (User.email (UserDoc.user d) = UserCreate.email user_data))
             (users db) = None →
    effect now db (POST_auth_register user_data new_id salt)
      (insert_user
         (UserDoc.mk
            (User.mk new_id (UserCreate.email user_data) (UserCreate.name user_data)
                     (UserCreate.role user_data) now true)
            (hash_password (UserCreate.password user_data) salt)) db)
| effect_create_event (credentials : Token) (event_data : EventCreate.t) (new_id : string)
    (e : Event.t) :
    Event.id e = new_id →
    Event.status e = DRAFT →
    effect now db (POST_events credentials event_data new_id) (insert_event e db)
| effect_update_status (credentials : Token) (event_id : string) (status : EventStatus) :
    effect now db (PUT_events_status credentials event_id status)
      (update_event (λ e, bool_decide (Event.id e = event_id)) (set_status status) db)
| effect_create_team (credentials : Token) (team_data : TeamCreate.t) (new_id : string)
    (u : User.t) :
    find_one (on_team_of_event (TeamCreate.event_id team_data) (User.id u)) (teams db)
    = None →
    effect now db (POST_teams credentials team_data new_id)
      (insert_team
         (Team.mk new_id (TeamCreate.name team_data) (TeamCreate.event_id team_data)
                  (User.id u) [User.id u] now) db)
| effect_create_submission (credentials : Token) (submission_data : SubmissionCreate.t)
    (team_id new_id : string) (team : Team.t) (s : Submission.t) :
    find_one (λ t, bool_decide (Team.id t = team_id)) (teams db) = Some team →
    submissions_of team_id (Team.event_id team) db = [] →
    Submission.id s = new_id →
    Submission.team_id s = team_id →
    Submission.event_id s = Team.event_id team →
    effect now db (POST_submissions credentials submission_data team_id new_id)
      (insert_submission s db).

(** ** The invariant of the reachable databases *)

Record invariant (db : DB) : Prop := mk_invariant {
  inv_user_ids : NoDup ((User.id ∘ UserDoc.user) <$> users db);
  inv_user_ids_nonempty : ∀ d, d ∈ users db → User.id (UserDoc.user d) ≠ "";
  inv_event_ids : NoDup (Event.id <$> events db);
  inv_members : ∀ t, t ∈ teams db → Team.members t = [Team.leader_id t];
  inv_one_team : ∀ ev u, (length (teams_of ev u db) ≤ 1)%nat;
  inv_one_submission : ∀ tid ev, (length (submissions_of tid ev db) ≤ 1)%nat;
  inv_submission_team : ∀ s, s ∈ submissions db →
    ∃ team, find_one (λ t, bool_decide (Team.id t = Submission.team_id s)) (teams db)
            = Some team
            ∧ Submission.event_id s = Team.event_id team }.

(** ** Proof automation *)

Ltac unfold_M :=
  unfold respond, bind, query, write, ret, raise in *.

(** Case analysis on the dependency of a route; [Lr] and [Lg] are the lemmas
    stating that [require_role] and [get_current_user] leave the database as
    it is. *)
Ltac resolve_dependency_with Lr Lg :=
  match goal with
  | |- context [require_role ?r ?n ?c ?db] =>
      let H := fresh "Hdep" in
      destruct (require_role r n c db) as [[?u|?e] ?db'] eqn:H;
      apply Lr in H as ->
  | |- context [get_current_user ?n ?c ?db] =>
      let H := fresh "Hdep" in
      destruct (get_current_user n c db) as [[?u|?e] ?db'] eqn:H;
      apply Lg in H as ->
  end.

(** ** The outcome of a request *)

(** The bearer credentials a request carries, if any. *)
Definition credentials_of (req : Request) : option Token :=
  match req with
  | POST_auth_register _ _ _ | POST_auth_login _ | GET_events | GET_events_id _ => None
  | GET_auth_me c | POST_events c _ _ | GET_events_my_organized c
  | PUT_events_status c _ _ | POST_teams c _ _ | GET_teams_my c
  | POST_submissions c _ _ _ | GET_submissions_team c _ => Some c
  end.

(** [outcome now db req r db']: request [req] at clock [now] on [db] may
    answer [r] and leave [db']; a write comes with the identity the
    dependency resolved and the documents it refers to. *)
Inductive outcome (now : Z) (db : DB) : Request → result Response → DB → Prop :=
| outcome_raise (req : Request) (e : HTTPException) :
    outcome now db req (Raise e) db
| outcome_same (req : Request) (a : Response) :
    outcome now db req (Ok a) db
| outcome_register (user_data : UserCreate.t) (new_id salt : string) (d : UserDoc.t) :
    User.id (UserDoc.user d) = new_id →
    User.role (UserDoc.user d) = UserCreate.role user_data →
    User.is_active (UserDoc.user d) = true →
    outcome now db (POST_auth_register user_data new_id salt)
            (Ok (RUser (user_response (UserDoc.user d)))) (insert_user d db)
| outcome_create_event (credentials : Token) (event_data : EventCreate.t)
    (new_id : string) (u : User.t) (e : Event.t) :
    require_role [ORGANIZER] now credentials db = (Ok u, db) →
    Event.organizer_id e = User.id u →
    outcome now db (POST_events credentials event_data new_id)
            (Ok (REvent e)) (insert_event e db)
| outcome_update_status (credentials : Token) (event_id : string) (status : EventStatus)
    (u : User.t) (e : Event.t) (message : string) :
    require_role [ORGANIZER] now credentials db = (Ok u, db) →
    e ∈ events db → Event.id e = event_id → Event.organizer_id e = User.id u →
    outcome now db (PUT_events_status credentials event_id status)
            (Ok (RMessage message))
            (update_event (λ x, bool_decide (Event.id x = event_id)) (set_status status) db)
| outcome_create_team (credentials : Token) (team_data : TeamCreate.t) (new_id : string)
    (u : User.t) (t : Team.t) (e : Event.t) :
    require_role [PARTICIPANT] now credentials db = (Ok u, db) →
    Team.leader_id t = User.id u →
    e ∈ events db → Event.id e = Team.event_id t →
    outcome now db (POST_teams credentials team_data new_id)
            (Ok (RTeam t)) (insert_team t db)
| outcome_create_submission (credentials : Token) (submission_data : SubmissionCreate.t)
    (team_id new_id : string) (u : User.t) (s : Submission.t) (t : Team.t) :
    require_role [PARTICIPANT] now credentials db = (Ok u, db) →
    t ∈ teams db → Team.id t = Submission.team_id s →
    Team.event_id t = Submission.event_id s →
    User.id u ∈ Team.members t →
    outcome now db (POST_submissions credentials submission_data team_id new_id)
            (Ok (RSubmission s)) (insert_submission s db).

(** ** The handlers as processes

    Each handler again, with one step for each [await] of the source, in the
    order of the source; the code between two awaits runs in one piece. *)

Definition get_current_user_async (now : Z) (credentials : Token) : Proc User.t :=
  atry_except_Exception
    (payload <~ Finish (decode_jwt_token now credentials) ;;
     let user_id := payload !! "id" in
     if negb (truthy user_id) then araise (HTTP_401 "Invalid token")
     else
       user_data <~ aquery (λ db,
         find_one (λ d, bool_decide (user_id = Some (VStr (User.id (UserDoc.user d)))))
                  (users db)) ;;
       match user_data with
       | None => araise (HTTP_401 "User not found")
       | Some d => aret (UserDoc.user d)
       end)%proc
    (HTTP_401 "Invalid authentication").

Definition role_checker_async (required_roles : list UserRole) (current_user : User.t)
  : Proc User.t :=
  if negb (bool_decide (User.role current_user ∈ required_roles))
  then araise (HTTP_403 "Insufficient permissions")
  else aret current_user.

Definition require_role_async (required_roles : list UserRole) (now : Z)
    (credentials : Token) : Proc User.t :=
  (current_user <~ get_current_user_async now credentials ;;
   role_checker_async required_roles current_user)%proc.

Definition register_async (user_data : UserCreate.t) (new_id : string) (now : Z)
    (salt : string) : Proc UserResponse.t :=
  (existing_user <~ aquery (λ db,
     find_one (λ d, bool_decide (User.email (UserDoc.user d) = UserCreate.email user_data))
              (users db)) ;;
   match existing_user with
   | Some _ => araise (HTTP_400 "Email already registered")
   | None =>
       let hashed_password := hash_password (UserCreate.password user_data) salt in
       let user := User.mk new_id (UserCreate.email user_data) (UserCreate.name user_data)
                           (UserCreate.role user_data) now true in
       awrite (insert_user (UserDoc.mk user hashed_password)) ;;;
       aret (user_response user)
   end)%proc.

Definition login_async (login_data : UserLogin.t) (now : Z) : Proc LoginResponse.t :=
  (user_data <~ aquery (λ db,
     find_one (λ d, bool_decide (User.email (UserDoc.user d) = UserLogin.email login_data))
              (users db)) ;;
   match user_data with
   | None => araise (HTTP_401 "Invalid credentials")
   | Some d =>
       if negb (verify_password (UserLogin.password login_data) (UserDoc.password d))
       then araise (HTTP_401 "Invalid credentials")
       else
         let user := UserDoc.user d in
         let token := create_jwt_token now (user_dict user) in
         aret (LoginResponse.mk token "bearer" (user_response user))
   end)%proc.

Definition create_event_async (event_data : EventCreate.t) (current_user : User.t)
    (new_id : string) (now : Z) : Proc Event.t :=
  let event :=
    Event.mk new_id (EventCreate.title event_data) (EventCreate.description event_data)
      (User.id current_user) DRAFT
      (EventCreate.start_date event_data) (EventCreate.end_date event_data)
      (EventCreate.submission_deadline event_data) (EventCreate.max_team_size event_data)
      (EventCreate.tracks event_data) (EventCreate.prizes event_data)
      (EventCreate.rules event_data) now in
  if bson_int (Event.max_team_size event)
  then (awrite (insert_event event) ;;; aret event)%proc
  else araise internal_server_error.

Definition get_events_async : Proc (list Event.t) :=
  aquery (λ db,
    find_to_list (λ e, negb (bool_decide (Event.status e = DRAFT))) 1000 (events db)).

Definition get_event_async (event_id : string) : Proc Event.t :=
  (event_data <~ aquery (λ db,
     find_one (λ e, bool_decide (Event.id e = event_id)) (events db)) ;;
   match event_data with
   | None => araise (HTTP_404 "Event not found")
   | Some e => aret e
   end)%proc.

Definition get_my_events_async (current_user : User.t) : Proc (list Event.t) :=
  aquery (λ db,
    find_to_list (λ e, bool_decide (Event.organizer_id e = User.id current_user))
                 1000 (events db)).

Definition update_event_status_async (event_id : string) (status : EventStatus)
    (current_user : User.t) : Proc string :=
  (event <~ aquery (λ db,
     find_one (λ e, bool_decide (Event.id e = event_id)
                    && bool_decide (Event.organizer_id e = User.id current_user))
              (events db)) ;;
   match event with
   | None => araise (HTTP_404 "Event not found or unauthorized")
   | Some _ =>
       awrite (update_event (λ e, bool_decide (Event.id e = event_id))
                            (set_status status)) ;;;
       aret "Event status updated successfully"
   end)%proc.

Definition create_team_async (team_data : TeamCreate.t) (current_user : User.t)
    (new_id : string) (now : Z) : Proc Team.t :=
  (event <~ aquery (λ db,
     find_one (λ e, bool_decide (Event.id e = TeamCreate.event_id team_data))
              (events db)) ;;
   if match event with
      | None => true
      | Some e => negb (bool_decide (Event.status e ∈ [ACTIVE; SUBMISSIONS_OPEN]))
      end
   then araise (HTTP_400 "Event not available for registration")
   else
     existing_team <~ aquery (λ db,
       find_one (on_team_of_event (TeamCreate.event_id team_data) (User.id current_user))
                (teams db)) ;;
     match existing_team with
     | Some _ => araise (HTTP_400 "Already part of a team for this event")
     | None =>
         let team := Team.mk new_id (TeamCreate.name team_data)
                             (TeamCreate.event_id team_data)
                             (User.id current_user) [User.id current_user] now in
         awrite (insert_team team) ;;;
         aret team
     end)%proc.

Definition get_my_teams_async (current_user : User.t) : Proc (list Team.t) :=
  aquery (λ db, find_to_list (leads_or_member (User.id current_user)) 1000 (teams db)).

Definition create_submission_async (submission_data : SubmissionCreate.t)
    (team_id : string) (current_user : User.t) (new_id : string) (now : Z)
  : Proc Submission.t :=
  (team <~ aquery (λ db, find_one (λ t, bool_decide (Team.id t = team_id)) (teams db)) ;;
   match team with
   | None => araise (HTTP_403 "Not a member of this team")
   | Some team =>
       if negb (bool_decide (User.id current_user ∈ Team.members team))
       then araise (HTTP_403 "Not a member of this team")
       else
         event <~ aquery (λ db,
           find_one (λ e, bool_decide (Event.id e = Team.event_id team)) (events db)) ;;
         if match event with
            | None => true
            | Some e => negb (bool_decide (Event.status e ∈ [SUBMISSIONS_OPEN]))
            end
         then araise (HTTP_400 "Submissions not open for this event")
         else
           existing <~ aquery (λ db,
             find_one (λ s, bool_decide (Submission.team_id s = team_id)
                            && bool_decide (Submission.event_id s = Team.event_id team))
                      (submissions db)) ;;
           match existing with
           | Some _ => araise (HTTP_400 "Submission already exists for this team")
           | None =>
               let submission :=
                 Submission.mk new_id team_id (Team.event_id team)
                   (SubmissionCreate.title submission_data)
                   (SubmissionCreate.description submission_data)
                   (SubmissionCreate.github_url submission_data)
                   (SubmissionCreate.demo_url submission_data)
                   (SubmissionCreate.video_url submission_data) now in
               awrite (insert_submission submission) ;;;
               aret submission
           end
   end)%proc.

Definition get_team_submission_async (team_id : string) (current_user : User.t)
  : Proc (option Submission.t) :=
  aquery (λ db,
    find_one (λ s, bool_decide (Submission.team_id s = team_id)) (submissions db)).

Definition arespond {A} (f : A → Response) (c : Proc A) : Proc Response :=
  (a <~ c ;; aret (f a))%proc.

(** A request, from the resolution of its dependencies to its answer. *)
Definition handle_async (now : Z) (req : Request) : Proc Response :=
  match req with
  | POST_auth_register user_data new_id salt =>
      arespond RUser (register_async user_data new_id now salt)
  | POST_auth_login login_data => arespond RLogin (login_async login_data now)
  | GET_auth_me credentials =>
      arespond RUser
        (current_user <~ get_current_user_async now credentials ;;
         aret (user_response current_user))%proc
  | POST_events credentials event_data new_id =>
      arespond REvent
        (current_user <~ require_role_async [ORGANIZER] now credentials ;;
         create_event_async event_data current_user new_id now)%proc
  | GET_events => arespond REvents get_events_async
  | GET_events_id event_id => arespond REvent (get_event_async event_id)
  | GET_events_my_organized credentials =>
      arespond REvents
        (current_user <~ require_role_async [ORGANIZER] now credentials ;;
         get_my_events_async current_user)%proc
  | PUT_events_status credentials event_id status =>
      arespond RMessage
        (current_user <~ require_role_async [ORGANIZER] now credentials ;;
         update_event_status_async event_id status current_user)%proc
  | POST_teams credentials team_data new_id =>
      arespond RTeam
        (current_user <~ require_role_async [PARTICIPANT] now credentials ;;
         create_team_async team_data current_user new_id now)%proc
  | GET_teams_my credentials =>
      arespond RTeams
        (current_user <~ require_role_async [PARTICIPANT] now credentials ;;
         get_my_teams_async current_user)%proc
  | POST_submissions credentials submission_data team_id new_id =>
      arespond RSubmission
        (current_user <~ require_role_async [PARTICIPANT] now credentials ;;
         create_submission_async submission_data team_id current_user new_id now)%proc
  | GET_submissions_team credentials team_id =>
      arespond ROptSubmission
        (current_user <~ get_current_user_async now credentials ;;
         get_team_submission_async team_id current_user)%proc
  end.

(** ** The server with interleaved requests *)

(** The pending requests, each with what is left of its handler. *)
Definition Pool : Type := list (Request * Proc Response).

Definition fresh_among (req : Request) (pool : Pool) : bool :=
  match request_id req with
  | Some new_id => negb (bool_decide (Some new_id ∈ (request_id ∘ fst) <$> pool))
  | None => true
  end.

(** One action on the database and the pool; [None] when the action is not
    possible: the id drawn for an arriving request is not fresh, or no
    handler is pending at the position to resume.  A finished handler leaves
    the pool. *)
Definition act (a : Action) (st : DB * Pool) : option (DB * Pool) :=
  let (db, pool) := st in
  match a with
  | Arrive now req =>
      if uuid4_fresh req db && fresh_among req pool
      then Some (db, (pool ++ [(req, handle_async now req)])%list)
      else None
  | Resume i =>
      match pool !! i with
      | None => None
      | Some (req, Finish _) => Some (db, delete i pool)
      | Some (req, Await_read k) => Some (db, <[i := (req, k db)]> pool)
      | Some (req, Await_write w k) => Some (w db, <[i := (req, k)]> pool)
      end
  end.

Fixpoint schedule (acts : list Action) (st : DB * Pool) : option (DB * Pool) :=
  match acts with
  | [] => Some st
  | a :: acts' =>
      match act a st with
      | Some st' => schedule acts' st'
      | None => None
      end
  end.

(** [interleaved_from db0 db]: from [db0] with no request pending, some
    arrivals and resumptions lead to [db], with any requests still pending. *)
Definition interleaved_from (db0 db : DB) : Prop :=
  ∃ acts pool, schedule acts (db0, []) = Some (db, pool).

Definition interleaved (db : DB) : Prop := interleaved_from empty_db db.

(** What holds of the stored identities and teams whatever the interleaving. *)
Definition identities_active_teams_led (db : DB) : Prop :=
  (∀ d, d ∈ users db → User.is_active (UserDoc.user d) = true)
  ∧ (∀ t, t ∈ teams db → Team.members t = [Team.leader_id t]).

(** ** Lemmas on the collection operations *)

Lemma find_one_None {A} (p : A → bool) (l : list A) :
  find_one p l = None ↔ ∀ x, x ∈ l → p x = false.
Proof.
  unfold find_one. induction l as [|a l IH]; simpl.
  - split; [intros _ x Hx; inversion Hx | done].
  - destruct (p a) eqn:Hpa.
    + split; [done | intros H; specialize (H a (list_elem_of_here _ _)); congruence].
    + rewrite IH. split.
      * intros H x Hx. apply elem_of_cons in Hx as [-> | Hx]; auto.
      * intros H x Hx. apply H. by apply list_elem_of_further.
Qed.

Lemma find_one_Some {A} (p : A → bool) (l : list A) (x : A) :
  find_one p l = Some x → x ∈ l ∧ p x = true.
Proof.
  unfold find_one. intros H. apply List.find_some in H as [Hin Hp].
  split; [by apply list_elem_of_In | done].
Qed.

Lemma find_one_app {A} (p : A → bool) (l1 l2 : list A) :
  find_one p (l1 ++ l2) =
  match find_one p l1 with Some x => Some x | None => find_one p l2 end.
Proof.
  unfold find_one. induction l1 as [|a l1 IH]; simpl; [done|].
  by destruct (p a).
Qed.

(** With a key that identifies documents, [find_one] on the key returns the
    document that carries it. *)
Lemma find_one_unique {A} (key : A → string) (l : list A) (x : A) :
  NoDup (key <$> l) → x ∈ l →
  find_one (λ y, bool_decide (key y = key x)) l = Some x.
Proof.
  unfold find_one. induction l as [|a l IH]; simpl; intros Hnd Hin.
  - inversion Hin.
  - apply NoDup_cons in Hnd as [Hna Hnd].
    apply elem_of_cons in Hin as [-> | Hin].
    + by rewrite bool_decide_eq_true_2.
    + rewrite bool_decide_eq_false_2; [by apply IH|].
      intros Heq. apply Hna. rewrite Heq. by apply list_elem_of_fmap_2.
Qed.

Lemma update_one_unique {A} (key : A → string) (f : A → A) (l : list A) (k : string) :
  NoDup (key <$> l) →
  update_one (λ y, bool_decide (key y = k)) f l =
  (λ y, if bool_decide (key y = k) then f y else y) <$> l.
Proof.
  induction l as [|a l IH]; simpl; intros Hnd; [done|].
  apply NoDup_cons in Hnd as [Hna Hnd].
  destruct (bool_decide (key a = k)) eqn:Hk.
  - f_equal. apply bool_decide_eq_true in Hk.
    clear IH. induction l as [|b l IHl]; simpl; [done|].
    simpl in Hna. apply not_elem_of_cons in Hna as [Hne Hna].
    apply NoDup_cons in Hnd as [_ Hnd].
    rewrite bool_decide_eq_false_2 by congruence.
    f_equal. by apply IHl.
  - f_equal. by apply IH.
Qed.

Lemma find_one_ext {A} (p q : A → bool) (l : list A) :
  (∀ x, p x = q x) → find_one p l = find_one q l.
Proof.
  intros H. unfold find_one. induction l as [|a l IH]; simpl; [done|].
  by rewrite H, IH.
Qed.

(** ** Lemmas on tokens *)

Lemma create_jwt_token_claims (t : Z) (user_data : gmap string Value) :
  create_jwt_token t user_data =
  JWS JWT_ALGORITHM JWT_SECRET
      (<["exp" := VInt (t + timedelta_hours JWT_EXPIRATION_HOURS)]>
         (serializable <$> user_data)).
Proof.
  unfold create_jwt_token, jwt_encode.
  rewrite lookup_insert_eq, insert_insert_eq. reflexivity.
Qed.

(** The claims of a token issued for [user.dict()] carry none of the
    registered claims but ['exp'], which alone decides their validation. *)
Lemma validate_issued_claims (u : User.t) (exp now : Z) :
  validate_claims int_of_str now (<["exp" := VInt exp]> (serializable <$> user_dict u))
  = if (exp <=? now)%Z then Some ExpiredSignatureError else None.
Proof.
  assert (∀ k, k ≠ "exp" → user_dict u !! k = None →
               (<["exp" := VInt exp]> (serializable <$> user_dict u)) !! k = None)
    as Habsent.
  { intros k Hk Hnone. by rewrite lookup_insert_ne, lookup_fmap, Hnone. }
  unfold validate_claims, validate_iat, validate_nbf, validate_exp, validate_aud,
    validate_sub, validate_jti.
  rewrite !Habsent by done. rewrite lookup_insert_eq. simpl.
  by destruct (exp <=? now)%Z.
Qed.

Lemma decode_create_jwt_token (t now : Z) (u : User.t) :
  (now < t + timedelta_hours JWT_EXPIRATION_HOURS)%Z →
  decode_jwt_token now (create_jwt_token t (user_dict u)) =
  Ok (<["exp" := VInt (t + timedelta_hours JWT_EXPIRATION_HOURS)]>
        (serializable <$> user_dict u)).
Proof.
  intros Hnow. rewrite create_jwt_token_claims.
  unfold decode_jwt_token, jwt_decode.
  rewrite bool_decide_eq_true_2 by (apply list_elem_of_here).
  rewrite bool_decide_eq_true_2 by reflexivity. simpl negb. cbv iota.
  rewrite validate_issued_claims.
  destruct (Z.leb_spec (t + timedelta_hours JWT_EXPIRATION_HOURS) now); [lia | done].
Qed.

Lemma decode_create_jwt_token_expired (t now : Z) (u : User.t) :
  (t + timedelta_hours JWT_EXPIRATION_HOURS ≤ now)%Z →
  decode_jwt_token now (create_jwt_token t (user_dict u))
  = Raise (HTTP_401 "Token expired").
Proof.
  intros Hnow. rewrite create_jwt_token_claims.
  unfold decode_jwt_token, jwt_decode.
  rewrite bool_decide_eq_true_2 by (apply list_elem_of_here).
  rewrite bool_decide_eq_true_2 by reflexivity. simpl negb. cbv iota.
  rewrite validate_issued_claims.
  destruct (Z.leb_spec (t + timedelta_hours JWT_EXPIRATION_HOURS) now); [done | lia].
Qed.

Lemma user_dict_id (u : User.t) : user_dict u !! "id" = Some (VStr (User.id u)).
Proof. reflexivity. Qed.

Lemma user_dict_role (u : User.t) :
  user_dict u !! "role" = Some (VStr (role_value (User.role u))).
Proof. reflexivity. Qed.

Lemma role_value_inj (r1 r2 : UserRole) : role_value r1 = role_value r2 → r1 = r2.
Proof. destruct r1, r2; simpl; congruence. Qed.

(** ** Lemmas on authentication *)

Lemma get_current_user_unfold (now : Z) (credentials : Token) (db : DB) :
  get_current_user now credentials db =
  match decode_jwt_token now credentials with
  | Raise _ => (Raise invalid_authentication, db)
  | Ok payload =>
      if truthy (payload !! "id") then
        match find_one (by_id (payload !! "id")) (users db) with
        | None => (Raise invalid_authentication, db)
        | Some d => (Ok (UserDoc.user d), db)
        end
      else (Raise invalid_authentication, db)
  end.
Proof.
  unfold get_current_user, try_except_Exception, get_current_user_try, bind.
  destruct (decode_jwt_token now credentials) as [payload|e]; [|done].
  destruct (truthy (payload !! "id")); simpl; [|done].
  unfold query, by_id.
  destruct (find_one _ (users db)); done.
Qed.

Lemma get_current_user_db (now : Z) (credentials : Token) (db db' : DB) r :
  get_current_user now credentials db = (r, db') → db' = db.
Proof.
  rewrite get_current_user_unfold. repeat case_match; congruence.
Qed.

Lemma require_role_unfold (roles : list UserRole) (now : Z) (credentials : Token) (db : DB) :
  require_role roles now credentials db =
  match get_current_user now credentials db with
  | (Ok u, _) =>
      if bool_decide (User.role u ∈ roles) then (Ok u, db)
      else (Raise (HTTP_403 "Insufficient permissions"), db)
  | (Raise e, _) => (Raise e, db)
  end.
Proof.
  unfold require_role, bind, role_checker.
  destruct (get_current_user now credentials db) as [[u|e] db'] eqn:Hg;
    apply get_current_user_db in Hg as ->; [|done].
  by destruct (bool_decide (User.role u ∈ roles)).
Qed.

Lemma require_role_db (roles : list UserRole) (now : Z) (credentials : Token) (db db' : DB) r :
  require_role roles now credentials db = (r, db') → db' = db.
Proof.
  rewrite require_role_unfold. repeat case_match; congruence.
Qed.

(** A route runs its handler on the identity its dependency resolved. *)
Lemma route_authorized {B} (roles : list UserRole) (now : Z) (credentials : Token)
    (db : DB) (u : User.t) (handler : User.t → M B) :
  require_role roles now credentials db = (Ok u, db) →
  (current_user <~ require_role roles now credentials ;; handler current_user) db
  = handler u db.
Proof. intros H. unfold bind. by rewrite H. Qed.

(** A token [login] issued for a stored identity authenticates as that
    identity for as long as it has not expired, provided ids identify the
    user documents and are not empty. *)
Lemma get_current_user_issued (db : DB) (d : UserDoc.t) (t now : Z) :
  NoDup ((User.id ∘ UserDoc.user) <$> users db) →
  d ∈ users db →
  User.id (UserDoc.user d) ≠ "" →
  (now < t + timedelta_hours JWT_EXPIRATION_HOURS)%Z →
  get_current_user now (create_jwt_token t (user_dict (UserDoc.user d))) db
  = (Ok (UserDoc.user d), db).
Proof.
  intros Hnd Hin Hne Hnow.
  rewrite get_current_user_unfold, decode_create_jwt_token by done.
  rewrite lookup_insert_ne by done.
  rewrite lookup_fmap, user_dict_id. simpl.
  rewrite bool_decide_eq_false_2 by done. simpl.
  replace (find_one _ (users db)) with (Some d); [done|].
  symmetry. rewrite <- (find_one_unique (User.id ∘ UserDoc.user) (users db) d Hnd Hin).
  apply find_one_ext. intros y. unfold by_id. simpl.
  apply bool_decide_ext. split; congruence.
Qed.

(** ** The effect of a request on the database: lemmas *)

Lemma find_one_filter_nil {A} (p : A → bool) (l : list A) :
  find_one p l = None → List.filter p l = [].
Proof.
  unfold find_one. induction l as [|a l IH]; simpl; [done|].
  destruct (p a); [done | apply IH].
Qed.

Lemma filter_nil_find_one {A} (p : A → bool) (l : list A) :
  List.filter p l = [] → find_one p l = None.
Proof.
  unfold find_one. induction l as [|a l IH]; simpl; [done|].
  destruct (p a); [done | apply IH].
Qed.

Lemma exec_effect (now : Z) (req : Request) (db : DB) :
  effect now db req (exec now req db).
Proof.
  unfold exec, handle.
  destruct req; unfold_M;
    unfold route_get_current_user_info, route_create_event, route_get_my_events,
      route_update_event_status, route_create_team, route_get_my_teams,
      route_create_submission, route_get_team_submission; unfold_M;
    try resolve_dependency_with require_role_db get_current_user_db; simpl; try apply effect_none.
  - unfold register. unfold_M.
    destruct (find_one _ (users db)) eqn:Hf; simpl; [apply effect_none|].
    by apply effect_register.
  - unfold login. unfold_M.
    destruct (find_one _ (users db)); simpl; [|apply effect_none].
    destruct (negb _); simpl; apply effect_none.
  - unfold create_event. unfold_M. simpl.
    destruct (bson_int _); simpl; [by apply effect_create_event | apply effect_none].
  - unfold get_event. unfold_M.
    destruct (find_one _ (events db)); simpl; apply effect_none.
  - unfold update_event_status. unfold_M.
    destruct (find_one _ (events db)); simpl; [|apply effect_none].
    apply effect_update_status.
  - unfold create_team. unfold_M.
    destruct (match find_one _ (events db) with Some _ => _ | None => _ end);
      simpl; [apply effect_none|].
    destruct (find_one _ (teams db)) eqn:Hf; simpl; [apply effect_none|].
    by apply effect_create_team.
  - unfold create_submission. unfold_M.
    destruct (find_one _ (teams db)) as [team|] eqn:Hteam; simpl; [|apply effect_none].
    destruct (negb _); simpl; [apply effect_none|].
    destruct (match find_one _ (events db) with Some _ => _ | None => _ end);
      simpl; [apply effect_none|].
    destruct (find_one _ (submissions db)) eqn:Hf; simpl; [apply effect_none|].
    eapply effect_create_submission; eauto.
    by apply find_one_filter_nil in Hf.
Qed.

(** ** Invariants of the reachable databases *)

Lemma update_one_key {A} (key : A → string) (p : A → bool) (f : A → A) (l : list A) :
  (∀ x, key (f x) = key x) → key <$> update_one p f l = key <$> l.
Proof.
  intros Hk. induction l as [|a l IH]; cbn [update_one]; [done|].
  destruct (p a); rewrite !fmap_cons; [by rewrite Hk | by rewrite IH].
Qed.

Lemma NoDup_snoc_fresh {A} (key : A → string) (l : list A) (x : A) :
  NoDup (key <$> l) → key x ∉ key <$> l → NoDup (key <$> (l ++ [x])%list).
Proof.
  intros Hnd Hfresh. rewrite fmap_app. apply NoDup_app. split; [done|].
  split; [|apply NoDup_singleton].
  intros k Hk Hk'. apply list_elem_of_singleton in Hk'. by subst.
Qed.

Lemma fresh_split (new_id : string) (ids : list string) :
  negb (bool_decide (new_id = "")) && negb (bool_decide (new_id ∈ ids)) = true →
  new_id ≠ "" ∧ new_id ∉ ids.
Proof.
  intros H. apply andb_true_iff in H as [H1 H2].
  apply negb_true_iff in H1, H2.
  apply bool_decide_eq_false in H1, H2. done.
Qed.

Lemma invariant_empty : invariant empty_db.
Proof.
  split; simpl; try apply NoDup_nil_2; try (intros ? H; by inversion H).
  - intros; unfold teams_of; simpl; lia.
  - intros; unfold submissions_of; simpl; lia.
Qed.

Lemma effect_invariant (now : Z) (db db' : DB) (req : Request) :
  invariant db → uuid4_fresh req db = true → effect now db req db' → invariant db'.
Proof.
  intros [Hu Hne He Hm Ht Hs Hst] Hfresh Heff.
  destruct Heff; simpl in Hfresh.
  - by split.
  - apply fresh_split in Hfresh as [Hid Hfresh].
    split; simpl; try done.
    + by apply NoDup_snoc_fresh.
    + intros d Hd. apply elem_of_app in Hd as [Hd | Hd]; [by apply Hne|].
      apply list_elem_of_singleton in Hd. by subst.
  - apply fresh_split in Hfresh as [Hid Hfresh].
    split; simpl; try done.
    apply NoDup_snoc_fresh; [done | by rewrite H].
  - split; simpl; try done.
    by rewrite update_one_key.
  - split; simpl; try done.
    + intros t Hin. apply elem_of_app in Hin as [Hin | Hin]; [by apply Hm|].
      apply list_elem_of_singleton in Hin. by subst.
    + intros ev u0. unfold teams_of. simpl.
      rewrite List.filter_app, length_app. simpl.
      destruct (on_team_of_event ev u0 _) eqn:Hon; simpl;
        [|specialize (Ht ev u0); unfold teams_of in Ht; lia].
      unfold on_team_of_event, leads_or_member in Hon. simpl in Hon.
      apply andb_true_iff in Hon as [Hev Hon].
      apply bool_decide_eq_true in Hev. subst ev.
      assert (u0 = User.id u) as ->.
      { apply orb_true_iff in Hon as [Hon | Hon]; apply bool_decide_eq_true in Hon.
        - done.
        - by apply list_elem_of_singleton in Hon. }
      apply find_one_filter_nil in H. rewrite H. simpl. lia.
    + intros s Hin. destruct (Hst s Hin) as (team & Hf & Hev).
      exists team. split; [|done].
      rewrite find_one_app. by rewrite Hf.
  - split; simpl; try done.
    + intros tid ev. unfold submissions_of. simpl.
      rewrite List.filter_app, length_app. simpl.
      destruct (bool_decide (Submission.team_id s = tid)
                && bool_decide (Submission.event_id s = ev)) eqn:Hon; simpl;
        [|specialize (Hs tid ev); unfold submissions_of in Hs; lia].
      apply andb_true_iff in Hon as [Htid Hev].
      apply bool_decide_eq_true in Htid, Hev. subst tid ev.
      rewrite H3, H2. unfold submissions_of in H0. rewrite H0. simpl. lia.
    + intros s0 Hin. apply elem_of_app in Hin as [Hin | Hin]; [by apply Hst|].
      apply list_elem_of_singleton in Hin. subst s0.
      exists team. rewrite H2. done.
Qed.

Lemma effect_users (now : Z) (db db' : DB) (req : Request) (d : UserDoc.t) :
  effect now db req db' → d ∈ users db → d ∈ users db'.
Proof.
  intros Heff Hin. destruct Heff; simpl; try done.
  apply elem_of_app. by left.
Qed.

Lemma reachable_from_invariant (db0 db : DB) :
  invariant db0 → reachable_from db0 db → invariant db.
Proof.
  intros H0 Hr. induction Hr as [|db now req Hr IH Hfresh]; [done|].
  eapply effect_invariant; [exact IH | exact Hfresh | apply exec_effect].
Qed.

Lemma reachable_invariant (db : DB) : reachable db → invariant db.
Proof. apply reachable_from_invariant, invariant_empty. Qed.

Lemma reachable_from_users (db0 db : DB) (d : UserDoc.t) :
  reachable_from db0 db → d ∈ users db0 → d ∈ users db.
Proof.
  intros Hr Hin. induction Hr as [|db now req Hr IH Hfresh]; [done|].
  eapply effect_users; [apply exec_effect | exact IH].
Qed.

Lemma reachable_from_trans (db0 db1 db2 : DB) :
  reachable_from db0 db1 → reachable_from db1 db2 → reachable_from db0 db2.
Proof.
  intros H1 H2. induction H2; [done|]. by apply reach_step.
Qed.

Lemma run_reachable (reqs : list (Z * Request)) (db0 db db' : DB) :
  reachable_from db0 db → run reqs db = Some db' → reachable_from db0 db'.
Proof.
  revert db. induction reqs as [|[now req] reqs IH]; simpl; intros db Hr Hrun.
  - congruence.
  - destruct (uuid4_fresh req db) eqn:Hfresh; [|done].
    apply (IH (exec now req db)); [by apply reach_step | done].
Qed.

(** ** Authentication and tokens *)

(** C1 (amended). For a token that validates, [get_current_user] looks the
    identity up by the id claim: when no user document carries that id it
    fails with the 401 "Invalid authentication"; when a document carries it
    (and the id claim is not an empty value) it returns that identity,
    whatever its [is_active] flag is.  Every failure is a 401 and leaves the
    database as it was. *)
Theorem C1_authenticate_refetches_by_id (db : DB) (now : Z) (credentials : Token)
    (payload : gmap string Value) :
  decode_jwt_token now credentials = Ok payload →
  (find_one (by_id (payload !! "id")) (users db) = None →
   get_current_user now credentials db = (Raise (HTTP_401 "Invalid authentication"), db))
  ∧ (∀ d, truthy (payload !! "id") = true →
          find_one (by_id (payload !! "id")) (users db) = Some d →
          get_current_user now credentials db = (Ok (UserDoc.user d), db))
  ∧ (∀ e db', get_current_user now credentials db = (Raise e, db') →
              status_code e = 401 ∧ db' = db).
Proof.
  intros Hdec. rewrite get_current_user_unfold, Hdec. repeat split.
  - intros ->. by destruct (truthy _).
  - intros d -> ->. done.
  - repeat case_match; intros; simplify_eq; done.
  - repeat case_match; intros; simplify_eq; done.
Qed.

(** The [except Exception] clause of [get_current_user] replaces whatever
    [decode_jwt_token] raised: two rejected tokens are rejected alike. *)
Lemma get_current_user_masks_decode_error (db : DB) (now : Z) (credentials : Token)
    (e : HTTPException) :
  decode_jwt_token now credentials = Raise e →
  get_current_user now credentials db = (Raise invalid_authentication, db).
Proof. intros H. by rewrite get_current_user_unfold, H. Qed.

(** C5. A token issued at time [t] for an identity decodes, at any time
    before [t] plus 24 hours, to claims that carry the identity's id and
    role, and its ['exp'] claim is [t] plus 24 hours (86400 seconds). *)
Theorem C5_token_round_trip (u : User.t) (t now : Z) :
  (now < t + 24 * 3600)%Z →
  ∃ payload,
    decode_jwt_token now (create_jwt_token t (user_dict u)) = Ok payload
    ∧ payload !! "id" = Some (VStr (User.id u))
    ∧ payload !! "role" = Some (VStr (role_value (User.role u)))
    ∧ payload !! "exp" = Some (VInt (t + 24 * 3600)).
Proof.
  intros Hnow. eexists. split.
  - apply decode_create_jwt_token. exact Hnow.
  - rewrite lookup_insert_eq, !lookup_insert_ne, !lookup_fmap by done.
    rewrite user_dict_id, user_dict_role. done.
Qed.

(** ** Login *)

(** C4. A wrong password for a stored email and any password for an email
    that is not stored make [login] fail with one and the same exception,
    401 "Invalid credentials", the database untouched. *)
Theorem C4_login_same_error (db : DB) (known unknown : UserLogin.t) (now now' : Z)
    (d : UserDoc.t) :
  find_one (λ x, bool_decide (User.email (UserDoc.user x) = UserLogin.email known))
           (users db) = Some d →
  verify_password (UserLogin.password known) (UserDoc.password d) = false →
  find_one (λ x, bool_decide (User.email (UserDoc.user x) = UserLogin.email unknown))
           (users db) = None →
  login known now db = (Raise (HTTP_401 "Invalid credentials"), db)
  ∧ login unknown now' db = (Raise (HTTP_401 "Invalid credentials"), db)
  ∧ fst (login known now db) = fst (login unknown now' db).
Proof.
  intros Hk Hpw Hu.
  assert (login known now db = (Raise (HTTP_401 "Invalid credentials"), db)) as H1.
  { unfold login. unfold_M. rewrite Hk. simpl. by rewrite Hpw. }
  assert (login unknown now' db = (Raise (HTTP_401 "Invalid credentials"), db)) as H2.
  { unfold login. unfold_M. by rewrite Hu. }
  by rewrite H1, H2.
Qed.

(** ** Events *)

(** C3. With event ids identifying events: whatever the current and the
    requested status, [update_event_status] called by the identity whose id
    is the event's [organizer_id] succeeds and rewrites that event, and only
    it, with the requested status; when no event of that id is owned by the
    caller (the id is unknown, or the event is somebody else's) it fails
    with the one 404 "Event not found or unauthorized" and the database is
    as before. *)
Theorem C3_update_event_status (db : DB) (event_id : string) (status : EventStatus)
    (current_user : User.t) :
  NoDup (Event.id <$> events db) →
  (∀ e, e ∈ events db → Event.id e = event_id →
        Event.organizer_id e = User.id current_user →
        ∃ db', update_event_status event_id status current_user db
               = (Ok "Event status updated successfully", db')
               ∧ events db' =
                 (λ x, if bool_decide (Event.id x = event_id)
                       then set_status status x else x) <$> events db
               ∧ set_status status e ∈ events db'
               ∧ Event.status (set_status status e) = status
               ∧ users db' = users db ∧ teams db' = teams db
               ∧ submissions db' = submissions db)
  ∧ ((∀ e, e ∈ events db → Event.id e = event_id →
           Event.organizer_id e ≠ User.id current_user) →
     update_event_status event_id status current_user db
     = (Raise (HTTP_404 "Event not found or unauthorized"), db)).
Proof.
  intros Hnd. split.
  - intros e Hin Hid Howner.
    unfold update_event_status. unfold_M.
    destruct (find_one _ (events db)) as [e'|] eqn:Hf.
    + simpl. eexists. split; [reflexivity|]. simpl.
      rewrite (update_one_unique Event.id) by done.
      repeat split.
      apply list_elem_of_fmap. exists e. split; [|done].
      by rewrite bool_decide_eq_true_2.
    + exfalso. rewrite find_one_None in Hf. specialize (Hf e Hin).
      rewrite !bool_decide_eq_true_2 in Hf by done. done.
  - intros Hnone.
    unfold update_event_status. unfold_M.
    destruct (find_one _ (events db)) as [e'|] eqn:Hf; [|done].
    exfalso. apply find_one_Some in Hf as [Hin Hp].
    apply andb_true_iff in Hp as [H1 H2].
    apply bool_decide_eq_true in H1, H2.
    by apply (Hnone e' Hin H1).
Qed.

(** ** Teams *)

Lemma not_on_team_find_one (db : DB) (ev u : string) :
  (∀ t, t ∈ teams db → Team.event_id t = ev →
        Team.leader_id t ≠ u ∧ u ∉ Team.members t) →
  find_one (on_team_of_event ev u) (teams db) = None.
Proof.
  intros H. apply find_one_None. intros t Hin.
  unfold on_team_of_event, leads_or_member.
  destruct (bool_decide (Team.event_id t = ev)) eqn:Hev; [|done].
  apply bool_decide_eq_true in Hev. destruct (H t Hin Hev) as [Hl Hm].
  by rewrite !bool_decide_eq_false_2.
Qed.

Lemma on_team_find_one (db : DB) (ev u : string) (t : Team.t) :
  t ∈ teams db → Team.event_id t = ev →
  Team.leader_id t = u ∨ u ∈ Team.members t →
  ∃ t', find_one (on_team_of_event ev u) (teams db) = Some t'.
Proof.
  intros Hin Hev Hon.
  destruct (find_one _ (teams db)) as [t'|] eqn:Hf; [by exists t'|].
  exfalso. rewrite find_one_None in Hf. specialize (Hf t Hin).
  unfold on_team_of_event, leads_or_member in Hf.
  rewrite (bool_decide_eq_true_2 _ Hev) in Hf. simpl in Hf.
  apply orb_false_iff in Hf as [H1 H2].
  apply bool_decide_eq_false in H1, H2. by destruct Hon.
Qed.

Lemma accepting_teams_decide (s : EventStatus) :
  bool_decide (s ∈ [ACTIVE; SUBMISSIONS_OPEN]) =
  match s with ACTIVE | SUBMISSIONS_OPEN => true | _ => false end.
Proof. by destruct s. Qed.

(** C6. For an identity that neither leads nor is a member of a team of the
    event, [create_team] succeeds if and only if the event's status is
    [ACTIVE] or [SUBMISSIONS_OPEN], and fails with 400 "Event not available
    for registration" for the four other statuses; the team it inserts has
    the caller as leader and the one-element list of the caller as members. *)
Theorem C6_create_team_gating (db : DB) (team_data : TeamCreate.t) (current_user : User.t)
    (new_id : string) (now : Z) (e : Event.t) :
  find_one (λ x, bool_decide (Event.id x = TeamCreate.event_id team_data)) (events db)
  = Some e →
  (∀ t, t ∈ teams db → Team.event_id t = TeamCreate.event_id team_data →
        Team.leader_id t ≠ User.id current_user
        ∧ User.id current_user ∉ Team.members t) →
  (Event.status e = ACTIVE ∨ Event.status e = SUBMISSIONS_OPEN →
   ∃ team, create_team team_data current_user new_id now db
           = (Ok team, insert_team team db)
           ∧ Team.leader_id team = User.id current_user
           ∧ Team.members team = [User.id current_user]
           ∧ Team.event_id team = TeamCreate.event_id team_data)
  ∧ (Event.status e ∈ [DRAFT; SUBMISSIONS_CLOSED; JUDGING; COMPLETED] →
     create_team team_data current_user new_id now db
     = (Raise (HTTP_400 "Event not available for registration"), db))
  ∧ ((∃ team db', create_team team_data current_user new_id now db = (Ok team, db'))
     ↔ Event.status e = ACTIVE ∨ Event.status e = SUBMISSIONS_OPEN).
Proof.
  intros He Hfree. apply not_on_team_find_one in Hfree.
  assert (Event.status e = ACTIVE ∨ Event.status e = SUBMISSIONS_OPEN →
          ∃ team, create_team team_data current_user new_id now db
                  = (Ok team, insert_team team db)
                  ∧ Team.leader_id team = User.id current_user
                  ∧ Team.members team = [User.id current_user]
                  ∧ Team.event_id team = TeamCreate.event_id team_data) as Hok.
  { intros Hst. unfold create_team. unfold_M. rewrite He.
    rewrite accepting_teams_decide.
    replace (match Event.status e with ACTIVE | SUBMISSIONS_OPEN => true | _ => false end)
      with true by (by destruct Hst as [-> | ->]).
    simpl. rewrite Hfree. simpl. eexists. split; [reflexivity|]. done. }
  assert (Event.status e ∈ [DRAFT; SUBMISSIONS_CLOSED; JUDGING; COMPLETED] →
          create_team team_data current_user new_id now db
          = (Raise (HTTP_400 "Event not available for registration"), db)) as Hko.
  { intros Hst. unfold create_team. unfold_M. rewrite He.
    rewrite accepting_teams_decide.
    rewrite !elem_of_cons, elem_of_nil in Hst.
    by destruct Hst as [-> | [-> | [-> | [-> | []]]]]. }
  split; [exact Hok|]. split; [exact Hko|]. split.
  - intros (team & db' & Hc).
    destruct (Event.status e) eqn:Hst; try (by left); try (by right);
      rewrite Hko in Hc by (rewrite !elem_of_cons; auto 10); discriminate.
  - intros Hst. destruct (Hok Hst) as (team & Hc & _). eauto.
Qed.

Lemma create_team_already_teamed (db : DB) (team_data : TeamCreate.t)
    (current_user : User.t) (new_id : string) (now : Z) (t : Team.t) :
  t ∈ teams db → Team.event_id t = TeamCreate.event_id team_data →
  Team.leader_id t = User.id current_user ∨ User.id current_user ∈ Team.members t →
  create_team team_data current_user new_id now db =
  (Raise (if event_in_status [ACTIVE; SUBMISSIONS_OPEN] (TeamCreate.event_id team_data) db
          then HTTP_400 "Already part of a team for this event"
          else HTTP_400 "Event not available for registration"), db).
Proof.
  intros Hin Hev Hon.
  destruct (on_team_find_one db _ _ t Hin Hev Hon) as [t' Hf].
  unfold create_team, event_in_status. unfold_M.
  destruct (find_one _ (events db)) as [e|]; [|done].
  destruct (bool_decide (Event.status e ∈ _)); simpl; [|done].
  by rewrite Hf.
Qed.

Lemma filter_le_1_unique {A} (p : A → bool) (l : list A) (x y : A) :
  (length (List.filter p l) ≤ 1)%nat →
  x ∈ l → y ∈ l → p x = true → p y = true → x = y.
Proof.
  intros Hlen Hx Hy Hpx Hpy.
  assert (x ∈ List.filter p l) as Hx'
    by (apply list_elem_of_In, List.filter_In; by rewrite <- list_elem_of_In).
  assert (y ∈ List.filter p l) as Hy'
    by (apply list_elem_of_In, List.filter_In; by rewrite <- list_elem_of_In).
  destruct (List.filter p l) as [|a [|b l']]; simpl in Hlen.
  - inversion Hx'.
  - apply list_elem_of_singleton in Hx', Hy'. congruence.
  - lia.
Qed.

(** C7 (amended). In every database reached by requests that are handled
    one at a time, an identity leads or is a member of at most one team per
    event.  In any database, a [create_team] call by an identity that
    already leads or is a member of a team of the event fails with a 400 and
    inserts nothing: with "Already part of a team for this event" when the
    event exists and is [ACTIVE] or [SUBMISSIONS_OPEN], with "Event not
    available for registration" otherwise. *)
Theorem C7_one_team_per_event (db : DB) (team_data : TeamCreate.t) (current_user : User.t)
    (new_id : string) (now : Z) :
  (reachable db →
   (∀ ev u, (length (teams_of ev u db) ≤ 1)%nat)
   ∧ (∀ ev u t1 t2, t1 ∈ teams db → t2 ∈ teams db →
        on_team_of_event ev u t1 = true → on_team_of_event ev u t2 = true → t1 = t2))
  ∧ ((∃ t, t ∈ teams db ∧ Team.event_id t = TeamCreate.event_id team_data
           ∧ (Team.leader_id t = User.id current_user
              ∨ User.id current_user ∈ Team.members t)) →
     ∃ e, create_team team_data current_user new_id now db = (Raise e, db)
          ∧ status_code e = 400
          ∧ e = if event_in_status [ACTIVE; SUBMISSIONS_OPEN]
                     (TeamCreate.event_id team_data) db
                then HTTP_400 "Already part of a team for this event"
                else HTTP_400 "Event not available for registration").
Proof.
  split.
  - intros Hr. apply reachable_invariant in Hr. destruct Hr as [_ _ _ _ Ht _ _].
    split; [exact Ht|].
    intros ev u t1 t2 H1 H2 Hp1 Hp2.
    by apply (filter_le_1_unique (on_team_of_event ev u) (teams db) t1 t2 (Ht ev u)).
  - intros (t & Hin & Hev & Hon).
    eexists. split; [by apply (create_team_already_teamed db _ _ _ _ t)|].
    split; [|done]. by destruct (event_in_status _ _ _).
Qed.

(** ** Submissions *)

Lemma create_submission_unfold (db : DB) (submission_data : SubmissionCreate.t)
    (team_id : string) (current_user : User.t) (new_id : string) (now : Z) :
  create_submission submission_data team_id current_user new_id now db =
  match find_one (λ t, bool_decide (Team.id t = team_id)) (teams db) with
  | None => (Raise (HTTP_403 "Not a member of this team"), db)
  | Some team =>
      if negb (bool_decide (User.id current_user ∈ Team.members team))
      then (Raise (HTTP_403 "Not a member of this team"), db)
      else if negb (event_in_status [SUBMISSIONS_OPEN] (Team.event_id team) db)
      then (Raise (HTTP_400 "Submissions not open for this event"), db)
      else
        match submissions_of team_id (Team.event_id team) db with
        | _ :: _ => (Raise (HTTP_400 "Submission already exists for this team"), db)
        | [] =>
            let submission :=
              Submission.mk new_id team_id (Team.event_id team)
                (SubmissionCreate.title submission_data)
                (SubmissionCreate.description submission_data)
                (SubmissionCreate.github_url submission_data)
                (SubmissionCreate.demo_url submission_data)
                (SubmissionCreate.video_url submission_data) now in
            (Ok submission, insert_submission submission db)
        end
  end.
Proof.
  unfold create_submission, event_in_status, submissions_of. unfold_M.
  destruct (find_one _ (teams db)) as [team|]; [|done].
  destruct (negb (bool_decide (User.id current_user ∈ _))); simpl; [done|].
  destruct (find_one _ (events db)) as [e|]; simpl; [|done].
  destruct (negb (bool_decide (Event.status e ∈ _))); simpl; [done|].
  destruct (find_one _ (submissions db)) as [s|] eqn:Hf; simpl.
  - destruct (List.filter _ (submissions db)) eqn:Hl; [|done].
    apply filter_nil_find_one in Hl. congruence.
  - apply find_one_filter_nil in Hf. by rewrite Hf.
Qed.

(** C8 (amended). In every database reached by requests that are handled
    one at a time there is at most one submission per (team, event) pair.
    In any database, a [create_submission] call for a team that already has
    a submission for its event fails and inserts nothing: with 403 "Not a
    member of this team" when the caller is not in the team's members, else
    with 400 "Submissions not open for this event" when the team's event is
    not [SUBMISSIONS_OPEN], else with 400 "Submission already exists for
    this team".  A submission that is created takes its [event_id] from the
    team document found by [team_id]. *)
Theorem C8_one_submission_per_team (db : DB) (submission_data : SubmissionCreate.t)
    (team_id : string) (current_user : User.t) (new_id : string) (now : Z) :
  (reachable db → ∀ tid ev, (length (submissions_of tid ev db) ≤ 1)%nat)
  ∧ (∀ team,
       find_one (λ t, bool_decide (Team.id t = team_id)) (teams db) = Some team →
       (∃ s, s ∈ submissions db ∧ Submission.team_id s = team_id
             ∧ Submission.event_id s = Team.event_id team) →
       ∃ e,
         create_submission submission_data team_id current_user new_id now db
         = (Raise e, db)
         ∧ e = if negb (bool_decide (User.id current_user ∈ Team.members team))
               then HTTP_403 "Not a member of this team"
               else if negb (event_in_status [SUBMISSIONS_OPEN] (Team.event_id team) db)
               then HTTP_400 "Submissions not open for this event"
               else HTTP_400 "Submission already exists for this team")
  ∧ (∀ s db',
       create_submission submission_data team_id current_user new_id now db = (Ok s, db') →
       db' = insert_submission s db
       ∧ Submission.team_id s = team_id
       ∧ ∃ team,
           find_one (λ t, bool_decide (Team.id t = team_id)) (teams db) = Some team
           ∧ Submission.event_id s = Team.event_id team).
Proof.
  split; [|split].
  - intros Hr. apply reachable_invariant in Hr. by destruct Hr as [_ _ _ _ _ Hs _].
  - intros team Hf (s & Hin & Htid & Hev).
    rewrite create_submission_unfold, Hf.
    assert (s ∈ submissions_of team_id (Team.event_id team) db) as Hsub.
    { unfold submissions_of. apply list_elem_of_In, List.filter_In.
      split; [by apply list_elem_of_In|].
      by rewrite !bool_decide_eq_true_2. }
    destruct (negb (bool_decide _)); [eauto|].
    destruct (negb (event_in_status _ _ _)); [eauto|].
    destruct (submissions_of _ _ _); [inversion Hsub | eauto].
  - intros s db'. rewrite create_submission_unfold.
    destruct (find_one _ (teams db)) as [team|]; [|done].
    destruct (negb (bool_decide _)); [done|].
    destruct (negb (event_in_status _ _ _)); [done|].
    destruct (submissions_of _ _ _); [|done].
    intros [= <- <-]. simpl. eauto.
Qed.

(** ** Role gating *)

Lemma login_Ok (db db' : DB) (login_data : UserLogin.t) (t : Z) (resp : LoginResponse.t) :
  login login_data t db = (Ok resp, db') →
  ∃ d, d ∈ users db ∧ db' = db
       ∧ resp = LoginResponse.mk (create_jwt_token t (user_dict (UserDoc.user d)))
                                 "bearer" (user_response (UserDoc.user d)).
Proof.
  unfold login. unfold_M.
  destruct (find_one _ (users db)) as [d|] eqn:Hf; [|done].
  destruct (negb _); [done|]. intros [= <- <-].
  apply find_one_Some in Hf as [Hin _]. eauto.
Qed.

Lemma require_role_forbidden (db : DB) (now : Z) (credentials : Token) (u : User.t)
    (allowed : list UserRole) :
  get_current_user now credentials db = (Ok u, db) →
  User.role u ∉ allowed →
  require_role allowed now credentials db
  = (Raise (HTTP_403 "Insufficient permissions"), db).
Proof.
  intros Hg Hrole. rewrite require_role_unfold, Hg.
  by rewrite bool_decide_eq_false_2.
Qed.

(** C9. A token that [login] issued for an identity, presented before it
    expires in any database reached from the one it was issued in, makes
    every dependency [require_role(allowed)] with the identity's role outside
    [allowed] fail with 403 "Insufficient permissions", so that a route
    behind that dependency answers 403 whatever its handler and payload are;
    in particular the three organizer-only routes answer 403 to a
    participant's token. *)
Theorem C9_wrong_role_forbidden (db0 db0' db : DB) (login_data : UserLogin.t) (t0 now : Z)
    (resp : LoginResponse.t) (r : UserRole) (allowed : list UserRole) :
  reachable db0 →
  login login_data t0 db0 = (Ok resp, db0') →
  reachable_from db0 db →
  (now < t0 + 24 * 3600)%Z →
  UserResponse.role (LoginResponse.user resp) = role_value r →
  r ∉ allowed →
  let credentials := LoginResponse.access_token resp in
  let forbidden := HTTP_403 "Insufficient permissions" in
  status_code forbidden = 403
  ∧ require_role allowed now credentials db = (Raise forbidden, db)
  ∧ (∀ (B : Type) (handler : User.t → M B),
       (current_user <~ require_role allowed now credentials ;; handler current_user) db
       = (Raise forbidden, db))
  ∧ (r = PARTICIPANT →
     ∀ event_data new_id event_id status,
       route_create_event now credentials event_data new_id db = (Raise forbidden, db)
       ∧ route_get_my_events now credentials db = (Raise forbidden, db)
       ∧ route_update_event_status now credentials event_id status db
         = (Raise forbidden, db)).
Proof.
  intros Hr0 Hlogin Hr Hnow Hrole Hout credentials forbidden.
  apply login_Ok in Hlogin as (d & Hin & -> & ->).
  simpl in Hrole, credentials. apply role_value_inj in Hrole. subst r.
  assert (invariant db) as [Hnd Hne _ _ _ _ _]
    by (apply (reachable_from_invariant db0); [by apply reachable_invariant | done]).
  assert (d ∈ users db) as Hin' by (by apply (reachable_from_users db0)).
  assert (get_current_user now credentials db = (Ok (UserDoc.user d), db)) as Hg
    by (apply get_current_user_issued; auto).
  assert (∀ roles, User.role (UserDoc.user d) ∉ roles →
                   require_role roles now credentials db = (Raise forbidden, db)) as Hrr
    by (intros roles Hroles; by apply (require_role_forbidden db now _ (UserDoc.user d))).
  split; [done|]. split; [by apply Hrr|]. split.
  - intros B handler. unfold bind. by rewrite Hrr.
  - intros Hpart event_data new_id event_id status.
    assert (User.role (UserDoc.user d) ∉ [ORGANIZER]) as Hno.
    { rewrite Hpart. intros Hel. apply list_elem_of_singleton in Hel. discriminate. }
    unfold route_create_event, route_get_my_events, route_update_event_status, bind.
    by rewrite !Hrr.
Qed.

(** ** The handlers do not read [max_team_size] *)

Lemma event_sim_refl (e : Event.t) : event_sim e e.
Proof. reflexivity. Qed.

Lemma event_sim_fields (e1 e2 : Event.t) :
  event_sim e1 e2 →
  Event.id e1 = Event.id e2 ∧ Event.organizer_id e1 = Event.organizer_id e2
  ∧ Event.status e1 = Event.status e2.
Proof. unfold event_sim, set_max_team_size. intros [= ]. done. Qed.

Lemma event_sim_set_status (s : EventStatus) (e1 e2 : Event.t) :
  event_sim e1 e2 → event_sim (set_status s e1) (set_status s e2).
Proof.
  unfold event_sim, set_max_team_size, set_status. simpl. intros [= ]. congruence.
Qed.

Lemma db_sim_refl (db : DB) : db_sim db db.
Proof.
  repeat split. apply Forall2_same_length_lookup. split; [done|].
  intros i x y Hx Hy. rewrite Hx in Hy. injection Hy as ->. apply event_sim_refl.
Qed.

Lemma find_one_sim (p : Event.t → bool) (l1 l2 : list Event.t) :
  (∀ e1 e2, event_sim e1 e2 → p e1 = p e2) →
  Forall2 event_sim l1 l2 →
  option_Forall2 event_sim (find_one p l1) (find_one p l2).
Proof.
  intros Hp Hl. unfold find_one.
  induction Hl as [|e1 e2 l1 l2 He Hl IH]; simpl; [constructor|].
  rewrite (Hp e1 e2 He). destruct (p e2); [by constructor | exact IH].
Qed.

Lemma filter_sim (p : Event.t → bool) (l1 l2 : list Event.t) :
  (∀ e1 e2, event_sim e1 e2 → p e1 = p e2) →
  Forall2 event_sim l1 l2 →
  Forall2 event_sim (List.filter p l1) (List.filter p l2).
Proof.
  intros Hp Hl.
  induction Hl as [|e1 e2 l1 l2 He Hl IH]; simpl; [constructor|].
  rewrite (Hp e1 e2 He). destruct (p e2); [by constructor | exact IH].
Qed.

Lemma find_to_list_sim (p : Event.t → bool) (n : nat) (l1 l2 : list Event.t) :
  (∀ e1 e2, event_sim e1 e2 → p e1 = p e2) →
  Forall2 event_sim l1 l2 →
  Forall2 event_sim (find_to_list p n l1) (find_to_list p n l2).
Proof.
  intros Hp Hl. unfold find_to_list. apply Forall2_take. by apply filter_sim.
Qed.

Lemma update_one_sim (p : Event.t → bool) (f : Event.t → Event.t) (l1 l2 : list Event.t) :
  (∀ e1 e2, event_sim e1 e2 → p e1 = p e2) →
  (∀ e1 e2, event_sim e1 e2 → event_sim (f e1) (f e2)) →
  Forall2 event_sim l1 l2 →
  Forall2 event_sim (update_one p f l1) (update_one p f l2).
Proof.
  intros Hp Hf Hl.
  induction Hl as [|e1 e2 l1 l2 He Hl IH]; simpl; [constructor|].
  rewrite (Hp e1 e2 He). destruct (p e2); constructor; auto.
Qed.

Lemma M_sim_ret {A} (R : A → A → Prop) (a1 a2 : A) :
  R a1 a2 → M_sim R (ret a1) (ret a2).
Proof. intros HR db1 db2 Hdb. done. Qed.

Lemma M_sim_raise {A} (R : A → A → Prop) (e : HTTPException) :
  M_sim R (raise e) (raise e).
Proof. intros db1 db2 Hdb. done. Qed.

Lemma M_sim_query {A} (R : A → A → Prop) (q : DB → A) :
  (∀ db1 db2, db_sim db1 db2 → R (q db1) (q db2)) → M_sim R (query q) (query q).
Proof. intros Hq db1 db2 Hdb. split; [by apply Hq | done]. Qed.

Lemma M_sim_write (w1 w2 : DB → DB) :
  (∀ db1 db2, db_sim db1 db2 → db_sim (w1 db1) (w2 db2)) →
  M_sim eq (write w1) (write w2).
Proof. intros Hw db1 db2 Hdb. split; [done | by apply Hw]. Qed.

Lemma M_sim_bind {A B} (R : A → A → Prop) (S : B → B → Prop) (c1 c2 : M A)
    (k1 k2 : A → M B) :
  M_sim R c1 c2 → (∀ a1 a2, R a1 a2 → M_sim S (k1 a1) (k2 a2)) →
  M_sim S (bind c1 k1) (bind c2 k2).
Proof.
  intros Hc Hk db1 db2 Hdb. unfold bind.
  destruct (Hc db1 db2 Hdb) as [Hr Hd].
  destruct (c1 db1) as [[a1|e1] d1], (c2 db2) as [[a2|e2] d2]; simpl in *; try done.
  by apply Hk.
Qed.

Lemma M_sim_respond {A} (R : A → A → Prop) (f : A → Response) (c1 c2 : M A) :
  M_sim R c1 c2 → (∀ a1 a2, R a1 a2 → response_sim (f a1) (f a2)) →
  M_sim response_sim (respond f c1) (respond f c2).
Proof.
  intros Hc Hf. unfold respond. apply (M_sim_bind R); [done|].
  intros a1 a2 Ha. apply M_sim_ret. by apply Hf.
Qed.

Lemma users_query_sim {A} (q : list UserDoc.t → A) :
  M_sim eq (query (λ db, q (users db))) (query (λ db, q (users db))).
Proof. apply M_sim_query. intros db1 db2 (Hu & _). by rewrite Hu. Qed.

Lemma teams_query_sim {A} (q : list Team.t → A) :
  M_sim eq (query (λ db, q (teams db))) (query (λ db, q (teams db))).
Proof. apply M_sim_query. intros db1 db2 (_ & _ & Ht & _). by rewrite Ht. Qed.

Lemma submissions_query_sim {A} (q : list Submission.t → A) :
  M_sim eq (query (λ db, q (submissions db))) (query (λ db, q (submissions db))).
Proof. apply M_sim_query. intros db1 db2 (_ & _ & _ & Hs). by rewrite Hs. Qed.

Lemma events_find_one_sim (p : Event.t → bool) :
  (∀ e1 e2, event_sim e1 e2 → p e1 = p e2) →
  M_sim (option_Forall2 event_sim)
        (query (λ db, find_one p (events db))) (query (λ db, find_one p (events db))).
Proof.
  intros Hp. apply M_sim_query. intros db1 db2 (_ & He & _). by apply find_one_sim.
Qed.

Lemma events_find_sim (p : Event.t → bool) (n : nat) :
  (∀ e1 e2, event_sim e1 e2 → p e1 = p e2) →
  M_sim (Forall2 event_sim)
        (query (λ db, find_to_list p n (events db)))
        (query (λ db, find_to_list p n (events db))).
Proof.
  intros Hp. apply M_sim_query. intros db1 db2 (_ & He & _). by apply find_to_list_sim.
Qed.

Lemma by_event_id_sim (k : string) (e1 e2 : Event.t) :
  event_sim e1 e2 → bool_decide (Event.id e1 = k) = bool_decide (Event.id e2 = k).
Proof. intros H. apply event_sim_fields in H as (-> & _). done. Qed.

Lemma get_current_user_sim (now : Z) (credentials : Token) :
  M_sim eq (get_current_user now credentials) (get_current_user now credentials).
Proof.
  intros db1 db2 Hdb. rewrite !get_current_user_unfold.
  destruct Hdb as (Hu & He & Ht & Hs). rewrite Hu.
  assert (db_sim db1 db2) by done.
  repeat case_match; done.
Qed.

Lemma require_role_sim (roles : list UserRole) (now : Z) (credentials : Token) :
  M_sim eq (require_role roles now credentials) (require_role roles now credentials).
Proof.
  unfold require_role. apply (M_sim_bind eq); [apply get_current_user_sim|].
  intros u ? <-. unfold role_checker.
  destruct (negb _); [apply M_sim_raise | by apply M_sim_ret].
Qed.

Lemma register_sim (user_data : UserCreate.t) (new_id : string) (now : Z) (salt : string) :
  M_sim eq (register user_data new_id now salt) (register user_data new_id now salt).
Proof.
  unfold register. apply (M_sim_bind eq).
  - apply (users_query_sim (find_one _)).
  - intros o ? <-. destruct o; [apply M_sim_raise|].
    apply (M_sim_bind eq); [|intros; by apply M_sim_ret].
    apply M_sim_write. intros db1 db2 (Hu & He & Ht & Hs).
    repeat split; simpl; congruence.
Qed.

Lemma login_sim (login_data : UserLogin.t) (now : Z) :
  M_sim eq (login login_data now) (login login_data now).
Proof.
  unfold login. apply (M_sim_bind eq).
  - apply (users_query_sim (find_one _)).
  - intros o ? <-. destruct o; [|apply M_sim_raise].
    destruct (negb _); [apply M_sim_raise | by apply M_sim_ret].
Qed.

Lemma create_event_sim (event_data : EventCreate.t) (u : User.t) (new_id : string) (now : Z) :
  M_sim event_sim (create_event event_data u new_id now)
                  (create_event event_data u new_id now).
Proof.
  unfold create_event. destruct (bson_int _); [|apply M_sim_raise].
  apply (M_sim_bind eq); [|intros; by apply M_sim_ret].
  apply M_sim_write. intros db1 db2 (Hu & He & Ht & Hs).
  repeat split; simpl; try congruence.
  apply Forall2_app; [done|]. by constructor.
Qed.

Lemma get_event_sim (event_id : string) :
  M_sim event_sim (get_event event_id) (get_event event_id).
Proof.
  unfold get_event. apply (M_sim_bind (option_Forall2 event_sim)).
  - apply events_find_one_sim. intros. by apply by_event_id_sim.
  - intros o1 o2 [e1 e2 He|]; [by apply M_sim_ret | apply M_sim_raise].
Qed.

Lemma update_event_status_sim (event_id : string) (status : EventStatus) (u : User.t) :
  M_sim eq (update_event_status event_id status u) (update_event_status event_id status u).
Proof.
  unfold update_event_status. apply (M_sim_bind (option_Forall2 event_sim)).
  - apply events_find_one_sim. intros e1 e2 H.
    apply event_sim_fields in H as (-> & -> & _). done.
  - intros o1 o2 [e1 e2 He|]; [|apply M_sim_raise].
    apply (M_sim_bind eq); [|intros; by apply M_sim_ret].
    apply M_sim_write. intros db1 db2 (Hu & Hev & Ht & Hs).
    repeat split; simpl; try congruence.
    apply update_one_sim; [|apply event_sim_set_status|done].
    intros. by apply by_event_id_sim.
Qed.

Lemma status_gate_sim (allowed : list EventStatus) (o1 o2 : option Event.t) :
  option_Forall2 event_sim o1 o2 →
  match o1 with
  | None => true
  | Some e => negb (bool_decide (Event.status e ∈ allowed))
  end =
  match o2 with
  | None => true
  | Some e => negb (bool_decide (Event.status e ∈ allowed))
  end.
Proof.
  intros [e1 e2 He|]; [|done]. apply event_sim_fields in He as (_ & _ & ->). done.
Qed.

Lemma create_team_sim (team_data : TeamCreate.t) (u : User.t) (new_id : string) (now : Z) :
  M_sim eq (create_team team_data u new_id now) (create_team team_data u new_id now).
Proof.
  unfold create_team. apply (M_sim_bind (option_Forall2 event_sim)).
  - apply events_find_one_sim. intros. by apply by_event_id_sim.
  - intros o1 o2 Ho. rewrite (status_gate_sim _ o1 o2 Ho).
    destruct (match o2 with Some _ => _ | None => _ end); [apply M_sim_raise|].
    apply (M_sim_bind eq); [apply (teams_query_sim (find_one _))|].
    intros o ? <-. destruct o; [apply M_sim_raise|].
    apply (M_sim_bind eq); [|intros; by apply M_sim_ret].
    apply M_sim_write. intros db1 db2 (Hu & Hev & Ht & Hs).
    repeat split; simpl; congruence.
Qed.

Lemma create_submission_sim (submission_data : SubmissionCreate.t) (team_id : string)
    (u : User.t) (new_id : string) (now : Z) :
  M_sim eq (create_submission submission_data team_id u new_id now)
           (create_submission submission_data team_id u new_id now).
Proof.
  unfold create_submission. apply (M_sim_bind eq).
  - apply (teams_query_sim (find_one _)).
  - intros o ? <-. destruct o as [team|]; [|apply M_sim_raise].
    destruct (negb (bool_decide _)); [apply M_sim_raise|].
    apply (M_sim_bind (option_Forall2 event_sim)).
    + apply events_find_one_sim. intros. by apply by_event_id_sim.
    + intros o1 o2 Ho. rewrite (status_gate_sim _ o1 o2 Ho).
      destruct (match o2 with Some _ => _ | None => _ end); [apply M_sim_raise|].
      apply (M_sim_bind eq); [apply (submissions_query_sim (find_one _))|].
      intros o ? <-. destruct o; [apply M_sim_raise|].
      apply (M_sim_bind eq); [|intros; by apply M_sim_ret].
      apply M_sim_write. intros db1 db2 (Hu & Hev & Ht & Hs).
      repeat split; simpl; congruence.
Qed.

Lemma handle_sim (now : Z) (req : Request) :
  M_sim response_sim (handle now req) (handle now req).
Proof.
  destruct req; simpl.
  - apply (M_sim_respond eq); [apply register_sim | by intros ? ? <-].
  - apply (M_sim_respond eq); [apply login_sim | by intros ? ? <-].
  - apply (M_sim_respond eq); [|by intros ? ? <-].
    apply (M_sim_bind eq); [apply get_current_user_sim|].
    intros u ? <-. by apply M_sim_ret.
  - apply (M_sim_respond event_sim); [|done].
    apply (M_sim_bind eq); [apply require_role_sim|].
    intros u ? <-. apply create_event_sim.
  - apply (M_sim_respond (Forall2 event_sim)); [|done].
    apply events_find_sim. intros e1 e2 H.
    apply event_sim_fields in H as (_ & _ & ->). done.
  - apply (M_sim_respond event_sim); [apply get_event_sim | done].
  - apply (M_sim_respond (Forall2 event_sim)); [|done].
    apply (M_sim_bind eq); [apply require_role_sim|].
    intros u ? <-. apply events_find_sim. intros e1 e2 H.
    apply event_sim_fields in H as (_ & -> & _). done.
  - apply (M_sim_respond eq); [|by intros ? ? <-].
    apply (M_sim_bind eq); [apply require_role_sim|].
    intros u ? <-. apply update_event_status_sim.
  - apply (M_sim_respond eq); [|by intros ? ? <-].
    apply (M_sim_bind eq); [apply require_role_sim|].
    intros u ? <-. apply create_team_sim.
  - apply (M_sim_respond eq); [|by intros ? ? <-].
    apply (M_sim_bind eq); [apply require_role_sim|].
    intros u ? <-. apply (teams_query_sim (find_to_list _ _)).
  - apply (M_sim_respond eq); [|by intros ? ? <-].
    apply (M_sim_bind eq); [apply require_role_sim|].
    intros u ? <-. apply create_submission_sim.
  - apply (M_sim_respond eq); [|by intros ? ? <-].
    apply (M_sim_bind eq); [apply get_current_user_sim|].
    intros u ? <-. apply (submissions_query_sim (find_one _)).
Qed.

(** C10. In every reachable database the members of every team are the
    one-element list of its leader.  A request leaves the teams as they are
    unless it is a team creation, which appends one team whose members are
    the list of its leader.  No request reads [max_team_size]: on two
    databases that differ only in the [max_team_size] of their events, every
    request gives the same result (up to that field in the events returned)
    and leads to databases that again differ only in that field. *)
Theorem C10_members_is_leader (db : DB) (now : Z) (req : Request) :
  reachable db →
  (∀ t, t ∈ teams db → Team.members t = [Team.leader_id t])
  ∧ (teams (exec now req db) = teams db
     ∨ ∃ credentials team_data new_id t,
         req = POST_teams credentials team_data new_id
         ∧ teams (exec now req db) = (teams db ++ [t])%list
         ∧ Team.members t = [Team.leader_id t])
  ∧ (∀ db2, db_sim db db2 →
       result_sim (fst (handle now req db)) (fst (handle now req db2))
       ∧ db_sim (exec now req db) (exec now req db2)).
Proof.
  intros Hr. apply reachable_invariant in Hr. destruct Hr as [_ _ _ Hm _ _ _].
  split; [exact Hm|]. split.
  - destruct (exec_effect now req db); eauto.
    right. do 4 eexists. split; [reflexivity|]. done.
  - intros db2 Hdb. unfold exec. by apply handle_sim.
Qed.

(** ** Processes: running alone, and what they preserve *)

Lemma run_abind {A B} (c : Proc A) (f : A → Proc B) (db : DB) :
  run_proc (abind c f) db = bind (run_proc c) (λ a, run_proc (f a)) db.
Proof.
  unfold bind. revert db. induction c as [[a|e]|k IH|w k IH]; intros db; simpl; auto.
Qed.

Lemma run_atry_except_Exception {A} (c : Proc A) (e : HTTPException) (db : DB) :
  run_proc (atry_except_Exception c e) db = try_except_Exception (run_proc c) e db.
Proof.
  unfold try_except_Exception. revert db.
  induction c as [[a|e']|k IH|w k IH]; intros db; simpl; auto.
Qed.

Lemma run_get_current_user_async (now : Z) (credentials : Token) (db : DB) :
  run_proc (get_current_user_async now credentials) db
  = get_current_user now credentials db.
Proof.
  unfold get_current_user_async, get_current_user.
  rewrite run_atry_except_Exception. unfold try_except_Exception.
  unfold get_current_user_try, bind, query.
  destruct (decode_jwt_token now credentials) as [payload|]; simpl; [|done].
  destruct (negb (truthy _)); simpl; [done|].
  by destruct (find_one _ (users db)).
Qed.

Lemma run_require_role_async (roles : list UserRole) (now : Z) (credentials : Token)
    (db : DB) :
  run_proc (require_role_async roles now credentials) db
  = require_role roles now credentials db.
Proof.
  unfold require_role_async, require_role. rewrite run_abind. unfold bind.
  rewrite run_get_current_user_async.
  destruct (get_current_user now credentials db) as [[u|e] db']; [|done].
  unfold role_checker_async, role_checker. by destruct (negb _).
Qed.

Ltac run_dependency :=
  rewrite run_abind; unfold bind;
  rewrite ?run_require_role_async, ?run_get_current_user_async;
  match goal with
  | |- context [require_role ?r ?n ?c ?db] =>
      destruct (require_role r n c db) as [[?u|?e] ?db']; [|done]
  | |- context [get_current_user ?n ?c ?db] =>
      destruct (get_current_user n c db) as [[?u|?e] ?db']; [|done]
  end.

(** Run alone, the process of a request does what its handler does. *)
Lemma run_handle_async (now : Z) (req : Request) (db : DB) :
  run_proc (handle_async now req) db = handle now req db.
Proof.
  destruct req; unfold handle_async, handle, arespond, respond;
    rewrite run_abind; unfold bind at 1;
    unfold route_get_current_user_info, route_create_event, route_get_my_events,
      route_update_event_status, route_create_team, route_get_my_teams,
      route_create_submission, route_get_team_submission.
  - unfold register_async, register, bind, query, write. simpl.
    by destruct (find_one _ (users db)).
  - unfold login_async, login, bind, query. simpl.
    destruct (find_one _ (users db)); [|done]. by destruct (negb _).
  - run_dependency. done.
  - run_dependency. unfold create_event_async, create_event, bind, write.
    by destruct (bson_int _).
  - done.
  - unfold get_event_async, get_event, bind, query. simpl.
    by destruct (find_one _ (events db)).
  - run_dependency. done.
  - run_dependency. unfold update_event_status_async, update_event_status, bind, query,
      write. simpl. by destruct (find_one _ (events _)).
  - run_dependency. unfold create_team_async, create_team, bind, query, write. simpl.
    destruct (match find_one _ (events _) with Some _ => _ | None => _ end);
      simpl; [done|].
    by destruct (find_one _ (teams _)).
  - run_dependency. done.
  - run_dependency. unfold create_submission_async, create_submission, bind, query,
      write. simpl.
    destruct (find_one _ (teams _)); simpl; [|done].
    destruct (negb (bool_decide _)); simpl; [done|].
    destruct (match find_one _ (events _) with Some _ => _ | None => _ end);
      simpl; [done|].
    by destruct (find_one _ (submissions _)).
  - run_dependency. done.
Qed.

(** ** The interleaved server *)

Lemma schedule_app (acts1 acts2 : list Action) (st st' : DB * Pool) :
  schedule acts1 st = Some st' → schedule (acts1 ++ acts2) st = schedule acts2 st'.
Proof.
  revert st. induction acts1 as [|a acts1 IH]; cbn [schedule app]; intros st H.
  - by injection H as ->.
  - destruct (act a st) as [st1|]; [by apply IH | done].
Qed.

(** A lone pending process can be resumed until it has answered; the
    database is then the one it leaves when run alone. *)
Lemma resume_alone (req : Request) (c : Proc Response) (db : DB) :
  ∃ acts, schedule acts (db, [(req, c)]) = Some (snd (run_proc c db), []).
Proof.
  revert db. induction c as [r|k IH|w k IH]; intros db.
  - exists [Resume 0%nat]. reflexivity.
  - destruct (IH db db) as [acts Hacts]. exists (Resume 0%nat :: acts). exact Hacts.
  - destruct (IH (w db)) as [acts Hacts]. exists (Resume 0%nat :: acts). exact Hacts.
Qed.

Lemma fresh_among_nil (req : Request) : fresh_among req [] = true.
Proof.
  unfold fresh_among. destruct (request_id req) as [new_id|]; [|done].
  rewrite bool_decide_eq_false_2; [done|]. simpl. apply not_elem_of_nil.
Qed.

(** Requests handled one at a time are a special interleaving. *)
Lemma reachable_from_interleaved (db0 db : DB) :
  reachable_from db0 db → ∃ acts, schedule acts (db0, []) = Some (db, []).
Proof.
  intros Hr. induction Hr as [|db now req Hr [acts Hacts] Hfresh].
  - by exists [].
  - destruct (resume_alone req (handle_async now req) db) as [acts' Hacts'].
    rewrite run_handle_async in Hacts'.
    exists (acts ++ Arrive now req :: acts')%list.
    rewrite (schedule_app _ _ _ _ Hacts). simpl.
    rewrite Hfresh, fresh_among_nil. simpl. exact Hacts'.
Qed.

Lemma reachable_then_interleaved (db0 db1 db2 : DB) :
  reachable_from db0 db1 → interleaved_from db1 db2 → interleaved_from db0 db2.
Proof.
  intros Hr (acts2 & pool & H2).
  destruct (reachable_from_interleaved db0 db1 Hr) as [acts1 H1].
  exists (acts1 ++ acts2)%list, pool. by rewrite (schedule_app _ _ _ _ H1).
Qed.

Lemma reachable_interleaved (db : DB) : reachable db → interleaved db.
Proof.
  intros Hr. apply (reachable_then_interleaved empty_db db db Hr).
  by exists [], [].
Qed.

Lemma preserves_abind {A B} (I : DB → Prop) (c : Proc A) (f : A → Proc B) :
  preserves I c → (∀ a, preserves I (f a)) → preserves I (abind c f).
Proof.
  intros Hc Hf. induction Hc as [[a|e]|k Hk IH|w k Hw Hk IH]; simpl.
  - apply Hf.
  - constructor.
  - constructor. intros db Hdb. by apply IH.
  - by constructor.
Qed.

Lemma preserves_atry_except_Exception {A} (I : DB → Prop) (c : Proc A)
    (e : HTTPException) :
  preserves I c → preserves I (atry_except_Exception c e).
Proof.
  intros Hc. induction Hc as [[a|e']|k Hk IH|w k Hw Hk IH]; simpl.
  - constructor.
  - constructor.
  - constructor. intros db Hdb. by apply IH.
  - by constructor.
Qed.

Lemma preserves_aquery {A} (I : DB → Prop) (q : DB → A) : preserves I (aquery q).
Proof. constructor. intros db _. constructor. Qed.

Lemma preserves_awrite (I : DB → Prop) (w : DB → DB) :
  (∀ db, I db → I (w db)) → preserves I (awrite w).
Proof. intros Hw. constructor; [done | constructor]. Qed.

Lemma preserves_get_current_user_async (I : DB → Prop) (now : Z) (credentials : Token) :
  preserves I (get_current_user_async now credentials).
Proof.
  unfold get_current_user_async. apply preserves_atry_except_Exception.
  destruct (decode_jwt_token now credentials) as [payload|]; simpl; [|constructor].
  destruct (negb (truthy _)); [constructor|].
  constructor. intros db _. destruct (find_one _ (users db)); constructor.
Qed.

Lemma preserves_require_role_async (I : DB → Prop) (roles : list UserRole) (now : Z)
    (credentials : Token) :
  preserves I (require_role_async roles now credentials).
Proof.
  unfold require_role_async.
  apply preserves_abind; [apply preserves_get_current_user_async|].
  intros u. unfold role_checker_async. destruct (negb _); constructor.
Qed.

Lemma insert_user_keeps (d : UserDoc.t) (db : DB) :
  User.is_active (UserDoc.user d) = true →
  identities_active_teams_led db → identities_active_teams_led (insert_user d db).
Proof.
  intros Hd [Hu Ht]. split; [|done]. simpl. intros d' Hd'.
  apply elem_of_app in Hd' as [Hd' | Hd']; [by apply Hu|].
  apply list_elem_of_singleton in Hd'. by subst.
Qed.

Lemma insert_team_keeps (t : Team.t) (db : DB) :
  Team.members t = [Team.leader_id t] →
  identities_active_teams_led db → identities_active_teams_led (insert_team t db).
Proof.
  intros Hm [Hu Ht]. split; [done|]. simpl. intros t' Ht'.
  apply elem_of_app in Ht' as [Ht' | Ht']; [by apply Ht|].
  apply list_elem_of_singleton in Ht'. by subst.
Qed.

(** Every write of every handler keeps the identities active and the teams
    led by their only member. *)
Lemma preserves_handle_async (now : Z) (req : Request) :
  preserves identities_active_teams_led (handle_async now req).
Proof.
  assert (∀ A (f : A → Response) (c : Proc A),
            preserves identities_active_teams_led c →
            preserves identities_active_teams_led (arespond f c)) as Hrespond.
  { intros A f c Hc. unfold arespond. apply preserves_abind; [done|].
    intros a. constructor. }
  assert (∀ A roles credentials (h : User.t → Proc A),
            (∀ u, preserves identities_active_teams_led (h u)) →
            preserves identities_active_teams_led
              (abind (require_role_async roles now credentials) h)) as Hrole.
  { intros A roles c h Hh. apply preserves_abind;
      [apply preserves_require_role_async | done]. }
  assert (∀ A credentials (h : User.t → Proc A),
            (∀ u, preserves identities_active_teams_led (h u)) →
            preserves identities_active_teams_led
              (abind (get_current_user_async now credentials) h)) as Hauth.
  { intros A c h Hh. apply preserves_abind;
      [apply preserves_get_current_user_async | done]. }
  destruct req; unfold handle_async; apply Hrespond;
    try (apply Hrole; intros u); try (apply Hauth; intros u).
  - unfold register_async. apply preserves_abind; [apply preserves_aquery|].
    intros [d|]; [constructor|].
    apply preserves_abind; [|intros; constructor].
    apply preserves_awrite. intros db. by apply insert_user_keeps.
  - unfold login_async. apply preserves_abind; [apply preserves_aquery|].
    intros [d|]; [|constructor]. destruct (negb _); constructor.
  - constructor.
  - unfold create_event_async. destruct (bson_int _); [|constructor].
    apply preserves_abind; [|intros; constructor].
    apply preserves_awrite. by intros db [Hu Ht].
  - apply preserves_aquery.
  - unfold get_event_async. apply preserves_abind; [apply preserves_aquery|].
    intros [e|]; constructor.
  - apply preserves_aquery.
  - unfold update_event_status_async.
    apply preserves_abind; [apply preserves_aquery|].
    intros [e|]; [|constructor].
    apply preserves_abind; [|intros; constructor].
    apply preserves_awrite. by intros db [Hu Ht].
  - unfold create_team_async. apply preserves_abind; [apply preserves_aquery|].
    intros event.
    destruct (match event with Some _ => _ | None => _ end); [constructor|].
    apply preserves_abind; [apply preserves_aquery|].
    intros [t|]; [constructor|].
    apply preserves_abind; [|intros; constructor].
    apply preserves_awrite. intros db. by apply insert_team_keeps.
  - apply preserves_aquery.
  - unfold create_submission_async.
    apply preserves_abind; [apply preserves_aquery|].
    intros [team|]; [|constructor].
    destruct (negb (bool_decide _)); [constructor|].
    apply preserves_abind; [apply preserves_aquery|].
    intros event.
    destruct (match event with Some _ => _ | None => _ end); [constructor|].
    apply preserves_abind; [apply preserves_aquery|].
    intros [s|]; [constructor|].
    apply preserves_abind; [|intros; constructor].
    apply preserves_awrite. by intros db [Hu Ht].
  - apply preserves_aquery.
Qed.

Lemma act_preserves (I : DB → Prop) (a : Action) (db db' : DB) (pool pool' : Pool) :
  (∀ now req, preserves I (handle_async now req)) →
  I db → Forall (λ p, preserves I (snd p)) pool →
  act a (db, pool) = Some (db', pool') →
  I db' ∧ Forall (λ p, preserves I (snd p)) pool'.
Proof.
  intros Hhandle Hdb Hpool Hact. destruct a as [now req|i]; simpl in Hact.
  - destruct (uuid4_fresh req db && fresh_among req pool); [|done].
    injection Hact as <- <-. split; [done|].
    apply Forall_app. split; [done|]. constructor; [apply Hhandle | constructor].
  - destruct (pool !! i) as [[req c]|] eqn:Hi; [|done].
    pose proof (Forall_lookup_1 _ _ _ _ Hpool Hi) as Hc. simpl in Hc.
    destruct c as [r|k|w k]; injection Hact as <- <-.
    + split; [done|]. by apply Forall_delete.
    + inversion Hc; subst. split; [done|]. apply Forall_insert; [done|]. simpl. auto.
    + inversion Hc; subst. split; [auto|]. by apply Forall_insert.
Qed.

Lemma schedule_preserves (I : DB → Prop) (acts : list Action) (db db' : DB)
    (pool pool' : Pool) :
  (∀ now req, preserves I (handle_async now req)) →
  I db → Forall (λ p, preserves I (snd p)) pool →
  schedule acts (db, pool) = Some (db', pool') →
  I db' ∧ Forall (λ p, preserves I (snd p)) pool'.
Proof.
  intros Hhandle. revert db pool.
  induction acts as [|a acts IH]; cbn [schedule]; intros db pool Hdb Hpool Hs.
  - by injection Hs as <- <-.
  - destruct (act a (db, pool)) as [[db1 pool1]|] eqn:Hact; [|done].
    destruct (act_preserves I a db db1 pool pool1 Hhandle Hdb Hpool Hact) as [H1 H2].
    by apply (IH db1 pool1).
Qed.

(** Whatever the interleaving, the stored identities are active and the
    members of a team are the one-element list of its leader. *)
Lemma interleaved_identities_active_teams_led (db : DB) :
  interleaved db → identities_active_teams_led db.
Proof.
  intros (acts & pool & Hs).
  apply (schedule_preserves identities_active_teams_led acts empty_db db [] pool);
    [apply preserves_handle_async | | constructor | exact Hs].
  split; intros x Hx; inversion Hx.
Qed.

(** ** Listings *)

Lemma find_to_list_elem {A} (p : A → bool) (n : nat) (l : list A) (x : A) :
  x ∈ find_to_list p n l → x ∈ l ∧ p x = true.
Proof.
  unfold find_to_list. intros Hx.
  apply elem_of_take in Hx as (i & Hi & _).
  apply list_elem_of_lookup_2 in Hi.
  apply list_elem_of_In, List.filter_In in Hi as [Hin Hp].
  split; [by apply list_elem_of_In | done].
Qed.

Lemma filter_length_le {A} (p : A → bool) (l : list A) :
  (length (List.filter p l) ≤ length l)%nat.
Proof.
  induction l as [|a l IH]; simpl; [done|]. destruct (p a); simpl; lia.
Qed.

Lemma find_to_list_complete {A} (p : A → bool) (n : nat) (l : list A) (x : A) :
  (length l ≤ n)%nat → x ∈ l → p x = true → x ∈ find_to_list p n l.
Proof.
  unfold find_to_list. intros Hlen Hx Hp.
  rewrite take_ge by (pose proof (filter_length_le p l); lia).
  apply list_elem_of_In, List.filter_In. split; [by apply list_elem_of_In | done].
Qed.

Lemma find_to_list_length {A} (p : A → bool) (n : nat) (l : list A) :
  (length (find_to_list p n l) ≤ n)%nat.
Proof. unfold find_to_list. rewrite length_take. lia. Qed.

Lemma filter_sublist {A} (p : A → bool) (l : list A) : List.filter p l `sublist_of` l.
Proof.
  induction l as [|a l IH]; simpl; [constructor|].
  destruct (p a); by constructor.
Qed.

Lemma find_to_list_sublist {A} (p : A → bool) (n : nat) (l : list A) :
  find_to_list p n l `sublist_of` l.
Proof.
  unfold find_to_list. etrans; [apply sublist_take | apply filter_sublist].
Qed.

(** X1. The public listing never fails and never changes the store; it
    lists, in store order, at most 1000 events, each of them stored and not
    in [DRAFT]; when the store holds at most 1000 events, every stored event
    that is not in [DRAFT] is listed. *)
Theorem get_events_lists_the_public_events (db : DB) :
  ∃ l, get_events db = (Ok l, db)
       ∧ l `sublist_of` events db
       ∧ (length l ≤ 1000)%nat
       ∧ (∀ e, e ∈ l → e ∈ events db ∧ Event.status e ≠ DRAFT)
       ∧ ((length (events db) ≤ 1000)%nat →
          ∀ e, e ∈ events db → Event.status e ≠ DRAFT → e ∈ l).
Proof.
  eexists. split; [reflexivity|].
  split; [apply find_to_list_sublist|].
  split; [apply find_to_list_length|]. split.
  - intros e He. apply find_to_list_elem in He as [Hin Hp].
    split; [done|]. apply negb_true_iff, bool_decide_eq_false in Hp. done.
  - intros Hlen e Hin Hst. apply find_to_list_complete; [done | done |].
    by rewrite bool_decide_eq_false_2.
Qed.

(** X2. The organizer's listing returns, in store order, at most 1000
    events, each of them stored with the caller as [organizer_id], drafts
    included; when the store holds at most 1000 events it returns every
    event the caller organizes. *)
Theorem get_my_events_lists_the_callers_events (db : DB) (current_user : User.t) :
  ∃ l, get_my_events current_user db = (Ok l, db)
       ∧ l `sublist_of` events db
       ∧ (length l ≤ 1000)%nat
       ∧ (∀ e, e ∈ l → e ∈ events db ∧ Event.organizer_id e = User.id current_user)
       ∧ ((length (events db) ≤ 1000)%nat →
          ∀ e, e ∈ events db → Event.organizer_id e = User.id current_user → e ∈ l).
Proof.
  eexists. split; [reflexivity|].
  split; [apply find_to_list_sublist|].
  split; [apply find_to_list_length|]. split.
  - intros e He. apply find_to_list_elem in He as [Hin Hp].
    split; [done|]. by apply bool_decide_eq_true in Hp.
  - intros Hlen e Hin Ho. apply find_to_list_complete; [done | done |].
    by rewrite bool_decide_eq_true_2.
Qed.

(** ** Creating and reading events *)


(** X4. With event ids identifying events, [get_event] returns the stored
    event of the requested id, whatever its status (a draft is readable by
    id), and fails with 404 "Event not found" when no stored event has that
    id; it needs no credentials and leaves the store as it is. *)
Theorem get_event_by_id (db : DB) (event_id : string) :
  NoDup (Event.id <$> events db) →
  (∀ e, e ∈ events db → Event.id e = event_id → get_event event_id db = (Ok e, db))
  ∧ (event_id ∉ Event.id <$> events db →
     get_event event_id db = (Raise (HTTP_404 "Event not found"), db)).
Proof.
  intros Hnd. split.
  - intros e Hin Hid. unfold get_event. unfold_M.
    subst event_id. by rewrite (find_one_unique Event.id (events db) e Hnd Hin).
  - intros Hno. unfold get_event. unfold_M.
    replace (find_one _ (events db)) with (@None Event.t); [done|].
    symmetry. apply find_one_None. intros x Hx.
    apply bool_decide_eq_false. intros Hid. apply Hno.
    rewrite <- Hid. by apply list_elem_of_fmap_2.
Qed.

(** ** Registration and login *)

(** X5. [register] with an email some stored identity already has (the
    comparison is exact, case included) fails with 400 "Email already
    registered" and stores nothing, whatever the other fields are. *)
Theorem register_rejects_a_taken_email (db : DB) (user_data : UserCreate.t)
    (new_id : string) (now : Z) (salt : string) (d : UserDoc.t) :
  d ∈ users db →
  User.email (UserDoc.user d) = UserCreate.email user_data →
  register user_data new_id now salt db
  = (Raise (HTTP_400 "Email already registered"), db).
Proof.
  intros Hin Hemail. unfold register. unfold_M.
  destruct (find_one _ (users db)) as [d'|] eqn:Hf; [done|].
  exfalso. rewrite find_one_None in Hf. specialize (Hf d Hin).
  by rewrite bool_decide_eq_true_2 in Hf.
Qed.


Lemma effect_emails (now : Z) (db db' : DB) (req : Request) :
  NoDup ((User.email ∘ UserDoc.user) <$> users db) →
  effect now db req db' →
  NoDup ((User.email ∘ UserDoc.user) <$> users db').
Proof.
  intros Hnd Heff. destruct Heff; simpl; try done.
  apply NoDup_snoc_fresh; [done|]. simpl.
  intros Hin. apply list_elem_of_fmap in Hin as (d & Hd & Hin).
  rewrite find_one_None in H. specialize (H d Hin).
  apply bool_decide_eq_false in H. simpl in Hd. congruence.
Qed.

(** X7. Whatever the interleaving of the requests, every stored identity
    is active: no request deactivates an account.  In every store reached by
    requests that are handled one at a time, the emails of the stored
    identities are pairwise distinct. *)
Theorem reachable_emails_unique_and_active (db : DB) :
  (interleaved db → ∀ d, d ∈ users db → User.is_active (UserDoc.user d) = true)
  ∧ (reachable db → NoDup ((User.email ∘ UserDoc.user) <$> users db)).
Proof.
  split.
  - intros Hi. by apply interleaved_identities_active_teams_led in Hi as [Hu _].
  - intros Hr. induction Hr as [|db now req Hr IH Hfresh].
    + apply NoDup_nil_2.
    + eapply effect_emails; [exact IH | apply exec_effect].
Qed.

(** ** What a request may do to the store *)

Lemma handle_outcome (now : Z) (req : Request) (db : DB) :
  outcome now db req (fst (handle now req db)) (snd (handle now req db)).
Proof.
  unfold handle.
  destruct req; unfold_M;
    unfold route_get_current_user_info, route_create_event, route_get_my_events,
      route_update_event_status, route_create_team, route_get_my_teams,
      route_create_submission, route_get_team_submission; unfold_M.
  - unfold register. unfold_M.
    destruct (find_one _ (users db)); simpl; [apply outcome_raise|].
    by apply (outcome_register now db user_data new_id salt (UserDoc.mk _ _)).
  - unfold login. unfold_M.
    destruct (find_one _ (users db)); simpl; [|apply outcome_raise].
    destruct (negb _); simpl; [apply outcome_raise | apply outcome_same].
  - destruct (get_current_user now credentials db) as [[u|e] db'] eqn:Hdep;
      apply get_current_user_db in Hdep as ->; simpl;
      [apply outcome_same | apply outcome_raise].
  - destruct (require_role _ now credentials db) as [[u|e] db'] eqn:Hdep;
      pose proof (require_role_db _ _ _ _ _ _ Hdep) as ->; simpl; [|apply outcome_raise].
    unfold create_event. unfold_M. simpl.
    destruct (bson_int _); simpl; [|apply outcome_raise].
    by apply (outcome_create_event now db credentials event_data new_id u).
  - simpl. apply outcome_same.
  - unfold get_event. unfold_M.
    destruct (find_one _ (events db)); simpl; [apply outcome_same | apply outcome_raise].
  - destruct (require_role _ now credentials db) as [[u|e] db'] eqn:Hdep;
      pose proof (require_role_db _ _ _ _ _ _ Hdep) as ->; simpl;
      [apply outcome_same | apply outcome_raise].
  - destruct (require_role _ now credentials db) as [[u|e] db'] eqn:Hdep;
      pose proof (require_role_db _ _ _ _ _ _ Hdep) as ->; simpl; [|apply outcome_raise].
    unfold update_event_status. unfold_M.
    destruct (find_one _ (events db)) as [ev|] eqn:Hf; simpl; [|apply outcome_raise].
    apply find_one_Some in Hf as [Hin Hp].
    apply andb_true_iff in Hp as [H1 H2]. apply bool_decide_eq_true in H1, H2.
    by apply (outcome_update_status now db credentials event_id status u ev).
  - destruct (require_role _ now credentials db) as [[u|e] db'] eqn:Hdep;
      pose proof (require_role_db _ _ _ _ _ _ Hdep) as ->; simpl; [|apply outcome_raise].
    unfold create_team. unfold_M.
    destruct (find_one _ (events db)) as [ev|] eqn:Hev; simpl; [|apply outcome_raise].
    destruct (negb _); simpl; [apply outcome_raise|].
    destruct (find_one _ (teams db)); simpl; [apply outcome_raise|].
    apply find_one_Some in Hev as [Hin Hp]. apply bool_decide_eq_true in Hp.
    by apply (outcome_create_team now db credentials team_data new_id u _ ev).
  - destruct (require_role _ now credentials db) as [[u|e] db'] eqn:Hdep;
      pose proof (require_role_db _ _ _ _ _ _ Hdep) as ->; simpl;
      [apply outcome_same | apply outcome_raise].
  - destruct (require_role _ now credentials db) as [[u|e] db'] eqn:Hdep;
      pose proof (require_role_db _ _ _ _ _ _ Hdep) as ->; simpl; [|apply outcome_raise].
    unfold create_submission. unfold_M.
    destruct (find_one _ (teams db)) as [team|] eqn:Hteam; simpl; [|apply outcome_raise].
    destruct (bool_decide (User.id u ∈ Team.members team)) eqn:Hmem; simpl;
      [|apply outcome_raise].
    destruct (match find_one _ (events db) with Some _ => _ | None => _ end);
      simpl; [apply outcome_raise|].
    destruct (find_one _ (submissions db)); simpl; [apply outcome_raise|].
    apply find_one_Some in Hteam as [Hin Hp]. apply bool_decide_eq_true in Hp, Hmem.
    by apply (outcome_create_submission now db credentials submission_data team_id
                new_id u _ team).
  - destruct (get_current_user now credentials db) as [[u|e] db'] eqn:Hdep;
      apply get_current_user_db in Hdep as ->; simpl;
      [apply outcome_same | apply outcome_raise].
Qed.

(** X8. A request that is answered by an error leaves the store exactly as
    it was: no handler writes before its last check. *)
Theorem failed_request_leaves_the_store (now : Z) (req : Request) (db : DB)
    (e : HTTPException) :
  fst (handle now req db) = Raise e → exec now req db = db.
Proof.
  intros Hfail. pose proof (handle_outcome now req db) as Ho. unfold exec.
  destruct (handle now req db) as [r db']. simpl in *. subst r.
  by inversion Ho.
Qed.

Lemma update_one_fmap {A B} (g : A → B) (p : A → bool) (f : A → A) (l : list A) :
  (∀ x, g (f x) = g x) → g <$> update_one p f l = g <$> l.
Proof.
  intros Hg. induction l as [|a l IH]; cbn [update_one]; [done|].
  destruct (p a); rewrite !fmap_cons; [by rewrite Hg | by rewrite IH].
Qed.

(** X9. No request deletes or rewrites a stored identity, team or
    submission, and no request deletes an event or changes any of its
    fields but the status: after a request each of the users, teams and
    submissions collections starts with what it held before, and so does the
    events collection once statuses are blanked out. *)
Theorem requests_only_append (now : Z) (req : Request) (db : DB) :
  users db `prefix_of` users (exec now req db)
  ∧ teams db `prefix_of` teams (exec now req db)
  ∧ submissions db `prefix_of` submissions (exec now req db)
  ∧ (set_status DRAFT <$> events db)
      `prefix_of` (set_status DRAFT <$> events (exec now req db)).
Proof.
  pose proof (handle_outcome now req db) as Ho. unfold exec.
  destruct (handle now req db) as [r db']. simpl in *.
  inversion Ho; subst; simpl; repeat split; try done;
    try (by apply prefix_app_r).
  - rewrite fmap_app. by apply prefix_app_r.
  - by rewrite update_one_fmap.
Qed.

Lemma require_role_Ok (roles : list UserRole) (now : Z) (credentials : Token)
    (db db' : DB) (u : User.t) :
  require_role roles now credentials db = (Ok u, db') →
  get_current_user now credentials db = (Ok u, db)
  ∧ User.role u ∈ roles
  ∧ ∃ d, d ∈ users db ∧ UserDoc.user d = u.
Proof.
  rewrite require_role_unfold.
  destruct (get_current_user now credentials db) as [[u'|e] db''] eqn:Hg; [|done].
  pose proof (get_current_user_db _ _ _ _ _ Hg) as ->.
  destruct (bool_decide (User.role u' ∈ roles)) eqn:Hrole; [|done].
  intros [= <- <-]. apply bool_decide_eq_true in Hrole.
  split; [done|]. split; [done|].
  rewrite get_current_user_unfold in Hg.
  destruct (decode_jwt_token now credentials) as [payload|]; [|done].
  destruct (truthy _); [|done].
  destruct (find_one _ (users db)) as [d|] eqn:Hf; [|done].
  injection Hg as <-. apply find_one_Some in Hf as [Hin _]. eauto.
Qed.

(** X10. Writes follow the role of the authenticated caller.  A request
    whose credentials authenticate as identity [u] never touches the users
    collection; it changes the events only if [u] is an organizer, and the
    teams or the submissions only if [u] is a participant; authenticated as
    a judge it changes nothing. *)
Theorem writes_follow_the_role (now : Z) (req : Request) (db : DB)
    (credentials : Token) (u : User.t) :
  credentials_of req = Some credentials →
  get_current_user now credentials db = (Ok u, db) →
  users (exec now req db) = users db
  ∧ (User.role u ≠ ORGANIZER → events (exec now req db) = events db)
  ∧ (User.role u ≠ PARTICIPANT →
     teams (exec now req db) = teams db
     ∧ submissions (exec now req db) = submissions db)
  ∧ (User.role u = JUDGE → exec now req db = db).
Proof.
  intros Hcred Hauth.
  pose proof (handle_outcome now req db) as Ho. unfold exec.
  destruct (handle now req db) as [r db']. simpl in *.
  assert (∀ roles credentials' u',
            Some credentials' = Some credentials →
            require_role roles now credentials' db = (Ok u', db) →
            User.role u ∈ roles) as Hrole.
  { intros roles c u' [= ->] Hrr. apply require_role_Ok in Hrr as (Hg & Hr & _).
    rewrite Hauth in Hg. by injection Hg as <-. }
  inversion Ho; subst; simpl in *; try done;
    match goal with
    | H : require_role _ _ _ _ = _ |- _ =>
        apply (Hrole _ _ _ Hcred), list_elem_of_singleton in H
    end;
    repeat split; try done; intros; congruence.
Qed.

Lemma elem_of_update_one {A} (p : A → bool) (f : A → A) (l : list A) (y : A) :
  y ∈ update_one p f l → y ∈ l ∨ ∃ x, x ∈ l ∧ y = f x.
Proof.
  induction l as [|a l IH]; cbn [update_one]; [by left|].
  destruct (p a); intros Hy; apply elem_of_cons in Hy as [-> | Hy].
  - right. exists a. split; [apply list_elem_of_here | done].
  - left. by apply list_elem_of_further.
  - left. apply list_elem_of_here.
  - destruct (IH Hy) as [Hin | (x & Hx & ->)].
    + left. by apply list_elem_of_further.
    + right. exists x. split; [by apply list_elem_of_further | done].
Qed.

(** X11. References between the collections resolve in every reachable
    store: the [organizer_id] of an event is the id of a stored organizer,
    the [event_id] of a team is the id of a stored event and its
    [leader_id] the id of a stored participant, and the [team_id] of a
    submission is the id of a stored team of the same event. *)
Theorem reachable_references_resolve (db : DB) :
  reachable db →
  (∀ e, e ∈ events db →
        ∃ d, d ∈ users db ∧ User.id (UserDoc.user d) = Event.organizer_id e
             ∧ User.role (UserDoc.user d) = ORGANIZER)
  ∧ (∀ t, t ∈ teams db →
          Team.event_id t ∈ Event.id <$> events db
          ∧ ∃ d, d ∈ users db ∧ User.id (UserDoc.user d) = Team.leader_id t
                 ∧ User.role (UserDoc.user d) = PARTICIPANT)
  ∧ (∀ s, s ∈ submissions db →
          ∃ t, t ∈ teams db ∧ Team.id t = Submission.team_id s
               ∧ Team.event_id t = Submission.event_id s).
Proof.
  intros Hr. induction Hr as [|db now req Hr (IHe & IHt & IHs) Hfresh].
  - split; [|split]; intros x Hx; inversion Hx.
  - pose proof (handle_outcome now req db) as Ho. unfold exec.
    destruct (handle now req db) as [r db']. simpl in *.
    inversion Ho; subst; simpl; try done.
    + (* register *)
      split; [|split; [|done]].
      * intros e He. destruct (IHe e He) as (d' & Hd' & Hid & Hrole).
        exists d'. split; [apply elem_of_app; by left | done].
      * intros t Ht. destruct (IHt t Ht) as (Hev & d' & Hd' & Hid & Hrole).
        split; [done|]. exists d'. split; [apply elem_of_app; by left | done].
    + (* create_event *)
      match goal with H : require_role _ _ _ _ = _ |- _ =>
        apply require_role_Ok in H as (_ & Hrole & d & Hd & <-) end.
      apply list_elem_of_singleton in Hrole.
      split; [|split; [|done]].
      * intros e' He'. apply elem_of_app in He' as [He' | He']; [by apply IHe|].
        apply list_elem_of_singleton in He'. subst e'. exists d. split; [done|].
        split; [congruence | done].
      * intros t Ht. destruct (IHt t Ht) as (Hev & Hl).
        split; [|done]. rewrite fmap_app. apply elem_of_app. by left.
    + (* update_event_status *)
      split; [|split; [|done]].
      * intros e' He'. apply elem_of_update_one in He' as [He' | (x & Hx & ->)];
          [by apply IHe|].
        destruct (IHe x Hx) as (d & Hd & Hid & Hrole). by exists d.
      * intros t Ht. destruct (IHt t Ht) as (Hev & Hl).
        split; [|done]. by rewrite (update_one_key Event.id).
    + (* create_team *)
      match goal with H : require_role _ _ _ _ = _ |- _ =>
        apply require_role_Ok in H as (_ & Hrole & d & Hd & <-) end.
      apply list_elem_of_singleton in Hrole.
      split; [done|]. split.
      * intros t' Ht'. apply elem_of_app in Ht' as [Ht' | Ht']; [by apply IHt|].
        apply list_elem_of_singleton in Ht'. subst t'. split.
        -- match goal with H : Event.id _ = Team.event_id _ |- _ => rewrite <- H end.
           by apply list_elem_of_fmap_2.
        -- exists d. split; [done|]. split; [congruence | done].
      * intros s Hs. destruct (IHs s Hs) as (t' & Ht' & Hid & Hev).
        exists t'. split; [apply elem_of_app; by left | done].
    + (* create_submission *)
      split; [done|]. split; [done|].
      intros s' Hs'. apply elem_of_app in Hs' as [Hs' | Hs']; [by apply IHs|].
      apply list_elem_of_singleton in Hs'. subst s'. eauto.
Qed.

(** ** Authentication, continued *)



(** X13. A token issued by [login] (its claims are those of [user.dict()]
    and ['exp']) is rejected once its 24 hours have passed: later than the
    issue time plus 86400 seconds [decode_jwt_token] raises 401 "Token
    expired" on it, [get_current_user] answers 401 "Invalid authentication",
    and so does every role dependency, in any store. *)
Theorem issued_token_expires (t now : Z) (u : User.t) (db : DB)
    (roles : list UserRole) :
  (t + 24 * 3600 < now)%Z →
  decode_jwt_token now (create_jwt_token t (user_dict u))
  = Raise (HTTP_401 "Token expired")
  ∧ get_current_user now (create_jwt_token t (user_dict u)) db
    = (Raise (HTTP_401 "Invalid authentication"), db)
  ∧ require_role roles now (create_jwt_token t (user_dict u)) db
    = (Raise (HTTP_401 "Invalid authentication"), db).
Proof.
  intros Hlate.
  assert (decode_jwt_token now (create_jwt_token t (user_dict u))
          = Raise (HTTP_401 "Token expired")) as Hdec
    by (apply decode_create_jwt_token_expired; unfold timedelta_hours,
          JWT_EXPIRATION_HOURS; lia).
  assert (get_current_user now (create_jwt_token t (user_dict u)) db
          = (Raise (HTTP_401 "Invalid authentication"), db)) as Hg
    by (by apply get_current_user_masks_decode_error with (e := HTTP_401 "Token expired")).
  split; [done|]. split; [done|].
  by rewrite require_role_unfold, Hg.
Qed.

(** X14. The caller's identity and role come from the store, not from the
    token: two tokens that both validate and carry the same ['id'] claim are
    authenticated alike and pass or fail every role dependency alike,
    whatever their other claims (the role claim included) say. *)
Theorem authentication_reads_only_the_id_claim (db : DB) (now : Z)
    (credentials1 credentials2 : Token) (payload1 payload2 : gmap string Value)
    (roles : list UserRole) :
  decode_jwt_token now credentials1 = Ok payload1 →
  decode_jwt_token now credentials2 = Ok payload2 →
  payload1 !! "id" = payload2 !! "id" →
  get_current_user now credentials1 db = get_current_user now credentials2 db
  ∧ require_role roles now credentials1 db = require_role roles now credentials2 db.
Proof.
  intros H1 H2 Hid.
  assert (get_current_user now credentials1 db = get_current_user now credentials2 db)
    as Hg by (by rewrite !get_current_user_unfold, H1, H2, Hid).
  split; [done|]. by rewrite !require_role_unfold, Hg.
Qed.

(** X15. Login and authentication compose: the token a successful [login]
    returns, presented before its 24 hours have passed in any store reached
    from the one it was issued in, authenticates as the identity that logged
    in; the /auth/me route answers with the user of the login response, and
    every role dependency that allows the identity's role lets it through. *)
Theorem login_then_authenticate (db0 db0' db : DB) (login_data : UserLogin.t) (t0 now : Z)
    (resp : LoginResponse.t) :
  reachable db0 →
  login login_data t0 db0 = (Ok resp, db0') →
  reachable_from db0 db →
  (now < t0 + 24 * 3600)%Z →
  ∃ u, user_response u = LoginResponse.user resp
       ∧ User.email u = UserLogin.email login_data
       ∧ get_current_user now (LoginResponse.access_token resp) db = (Ok u, db)
       ∧ route_get_current_user_info now (LoginResponse.access_token resp) db
         = (Ok (LoginResponse.user resp), db)
       ∧ ∀ roles, User.role u ∈ roles →
                  require_role roles now (LoginResponse.access_token resp) db = (Ok u, db).
Proof.
  intros Hr0 Hlogin Hr Hnow.
  assert (∃ d, d ∈ users db0
               ∧ User.email (UserDoc.user d) = UserLogin.email login_data
               ∧ resp = LoginResponse.mk (create_jwt_token t0 (user_dict (UserDoc.user d)))
                                         "bearer" (user_response (UserDoc.user d)))
    as (d & Hin & Hemail & ->).
  { unfold login in Hlogin. unfold_M.
    destruct (find_one _ (users db0)) as [d|] eqn:Hf; [|done].
    destruct (negb _); [done|]. injection Hlogin as <- <-.
    apply find_one_Some in Hf as [Hin Hp]. apply bool_decide_eq_true in Hp. eauto. }
  simpl.
  assert (invariant db) as [Hnd Hne _ _ _ _ _]
    by (apply (reachable_from_invariant db0); [by apply reachable_invariant | done]).
  assert (d ∈ users db) as Hin' by (by apply (reachable_from_users db0)).
  assert (get_current_user now (create_jwt_token t0 (user_dict (UserDoc.user d))) db
          = (Ok (UserDoc.user d), db)) as Hg
    by (apply get_current_user_issued; auto).
  exists (UserDoc.user d). repeat split; try done.
  - unfold route_get_current_user_info, bind. by rewrite Hg.
  - intros roles Hroles. rewrite require_role_unfold, Hg.
    by rewrite bool_decide_eq_true_2.
Qed.

(** ** Submissions and teams, continued *)

Lemma event_in_status_found (allowed : list EventStatus) (ev : string) (db : DB)
    (e : Event.t) :
  find_one (λ x, bool_decide (Event.id x = ev)) (events db) = Some e →
  event_in_status allowed ev db = bool_decide (Event.status e ∈ allowed).
Proof. intros H. unfold event_in_status. by rewrite H. Qed.

Lemma submissions_of_nil (team_id ev : string) (db : DB) :
  (∀ s, s ∈ submissions db → Submission.team_id s = team_id →
        Submission.event_id s ≠ ev) →
  submissions_of team_id ev db = [].
Proof.
  intros H. unfold submissions_of. apply find_one_filter_nil, find_one_None.
  intros s Hs. destruct (bool_decide (Submission.team_id s = team_id)) eqn:Ht; [|done].
  apply bool_decide_eq_true in Ht. simpl.
  apply bool_decide_eq_false. by apply H.
Qed.

(** X16. For a member of a team that has no submission for its event,
    [create_submission] succeeds if and only if the event's status is
    [SUBMISSIONS_OPEN], and fails with 400 "Submissions not open for this
    event" in the five other statuses ([ACTIVE], which admits teams,
    included); the submission it stores carries the given [team_id], the
    team's [event_id] and the fields of the request. *)
Theorem create_submission_gating (db : DB) (submission_data : SubmissionCreate.t)
    (team_id : string) (current_user : User.t) (new_id : string) (now : Z)
    (team : Team.t) (e : Event.t) :
  find_one (λ t, bool_decide (Team.id t = team_id)) (teams db) = Some team →
  User.id current_user ∈ Team.members team →
  find_one (λ x, bool_decide (Event.id x = Team.event_id team)) (events db) = Some e →
  (∀ s, s ∈ submissions db → Submission.team_id s = team_id →
        Submission.event_id s ≠ Team.event_id team) →
  (Event.status e = SUBMISSIONS_OPEN →
   create_submission submission_data team_id current_user new_id now db
   = (Ok (Submission.mk new_id team_id (Team.event_id team)
            (SubmissionCreate.title submission_data)
            (SubmissionCreate.description submission_data)
            (SubmissionCreate.github_url submission_data)
            (SubmissionCreate.demo_url submission_data)
            (SubmissionCreate.video_url submission_data) now),
      insert_submission
        (Submission.mk new_id team_id (Team.event_id team)
            (SubmissionCreate.title submission_data)
            (SubmissionCreate.description submission_data)
            (SubmissionCreate.github_url submission_data)
            (SubmissionCreate.demo_url submission_data)
            (SubmissionCreate.video_url submission_data) now) db))
  ∧ (Event.status e ≠ SUBMISSIONS_OPEN →
     create_submission submission_data team_id current_user new_id now db
     = (Raise (HTTP_400 "Submissions not open for this event"), db)).
Proof.
  intros Hteam Hmem Hev Hnone.
  rewrite create_submission_unfold, Hteam.
  rewrite (bool_decide_eq_true_2 _ Hmem). simpl.
  rewrite (event_in_status_found _ _ _ e Hev).
  rewrite (submissions_of_nil _ _ _ Hnone).
  split; intros Hst.
  - rewrite bool_decide_eq_true_2; [done|]. rewrite Hst. apply list_elem_of_here.
  - rewrite bool_decide_eq_false_2; [done|].
    intros Hin. by apply list_elem_of_singleton in Hin.
Qed.

(** X17. [create_submission] answers a team id that no stored team has and
    a caller who is not in the team's members with the same 403 "Not a
    member of this team", before looking at the event or at existing
    submissions, and stores nothing. *)
Theorem create_submission_hides_unknown_teams (db : DB)
    (submission_data : SubmissionCreate.t) (team_id : string) (current_user : User.t)
    (new_id : string) (now : Z) :
  (∀ t, t ∈ teams db → Team.id t = team_id → User.id current_user ∉ Team.members t) →
  create_submission submission_data team_id current_user new_id now db
  = (Raise (HTTP_403 "Not a member of this team"), db).
Proof.
  intros Hout. rewrite create_submission_unfold.
  destruct (find_one _ (teams db)) as [team|] eqn:Hf; [|done].
  apply find_one_Some in Hf as [Hin Hid]. apply bool_decide_eq_true in Hid.
  by rewrite (bool_decide_eq_false_2 _ (Hout team Hin Hid)).
Qed.


(** X19. Team creation and submission compose: in a reachable store whose
    event is [SUBMISSIONS_OPEN], the leader of a team just created under a
    fresh id can submit for it at once; the submission is stored with the
    new team's id and the event of the team. *)
Theorem create_team_then_submit (db db' : DB) (team_data : TeamCreate.t)
    (current_user : User.t) (new_id : string) (now now' : Z) (team : Team.t)
    (submission_data : SubmissionCreate.t) (submission_id : string) :
  reachable db →
  new_id ∉ Team.id <$> teams db →
  event_in_status [SUBMISSIONS_OPEN] (TeamCreate.event_id team_data) db = true →
  create_team team_data current_user new_id now db = (Ok team, db') →
  ∃ s, create_submission submission_data new_id current_user submission_id now' db'
       = (Ok s, insert_submission s db')
       ∧ Submission.team_id s = new_id
       ∧ Submission.event_id s = TeamCreate.event_id team_data.
Proof.
  intros Hr Hfresh Hopen Hc.
  apply reachable_invariant in Hr. destruct Hr as [_ _ _ _ _ _ Hst].
  assert (team = Team.mk new_id (TeamCreate.name team_data)
                         (TeamCreate.event_id team_data)
                         (User.id current_user) [User.id current_user] now
          ∧ db' = insert_team team db) as [-> ->].
  { unfold create_team in Hc. unfold_M.
    destruct (match find_one _ (events db) with Some _ => _ | None => _ end); [done|].
    destruct (find_one _ (teams db)); [done|]. simpl in Hc. by injection Hc as <- <-. }
  assert (find_one (λ t, bool_decide (Team.id t = new_id)) (teams db) = None) as Hnew.
  { apply find_one_None. intros t Ht. apply bool_decide_eq_false. intros Hid.
    apply Hfresh. rewrite <- Hid. by apply list_elem_of_fmap_2. }
  rewrite create_submission_unfold. simpl.
  rewrite find_one_app, Hnew. simpl.
  rewrite bool_decide_eq_true_2 by done. simpl.
  rewrite bool_decide_eq_true_2 by apply list_elem_of_here. simpl.
  replace (event_in_status _ _ _) with true. simpl.
  replace (submissions_of _ _ _) with (@nil Submission.t); [eauto|].
  symmetry. apply submissions_of_nil. intros s Hs Hid. exfalso.
  destruct (Hst s Hs) as (t & Hf & _). rewrite Hid in Hf. congruence.
Qed.

Lemma filter_length_pos {A} (q : A → bool) (l : list A) (x : A) :
  x ∈ l → q x = true → (1 ≤ length (List.filter q l))%nat.
Proof.
  intros Hx Hq. induction l as [|a l IH]; [inversion Hx|]. simpl.
  apply elem_of_cons in Hx as [<- | Hx].
  - rewrite Hq. simpl. lia.
  - destruct (q a); simpl; [lia | by apply IH].
Qed.

Lemma filter_keys_NoDup {A} (key : A → string) (p : A → bool) (l : list A) :
  (∀ k, (length (List.filter (λ x, bool_decide (key x = k) && p x) l) ≤ 1)%nat) →
  NoDup (key <$> List.filter p l).
Proof.
  induction l as [|a l IH]; intros Hone; simpl; [apply NoDup_nil_2|].
  assert (NoDup (key <$> List.filter p l)) as Hnd.
  { apply IH. intros k. specialize (Hone k). simpl in Hone.
    destruct (bool_decide (key a = k) && p a); simpl in Hone; lia. }
  destruct (p a) eqn:Hpa; [|done].
  rewrite fmap_cons. apply NoDup_cons. split; [|done].
  intros Hin. apply list_elem_of_fmap in Hin as (x & Hk & Hx).
  apply list_elem_of_In, List.filter_In in Hx as [Hx Hpx].
  apply list_elem_of_In in Hx.
  specialize (Hone (key a)). simpl in Hone.
  rewrite bool_decide_eq_true_2, Hpa in Hone by done. simpl in Hone.
  pose proof (filter_length_pos (λ y, bool_decide (key y = key a) && p y) l x Hx) as Hpos.
  simpl in Hpos. rewrite bool_decide_eq_true_2, Hpx in Hpos by congruence.
  specialize (Hpos eq_refl). lia.
Qed.

(** X20. Whatever the interleaving of the requests, [get_my_teams] returns,
    in store order, at most 1000 teams, each of them stored, led by the
    caller and with the caller as only member; when the store holds at most
    1000 teams it returns every team the caller leads.  In a store reached
    by requests that are handled one at a time, no two of the teams returned
    are of the same event. *)
Theorem get_my_teams_lists_the_callers_teams (db : DB) (current_user : User.t) :
  interleaved db →
  ∃ l, get_my_teams current_user db = (Ok l, db)
       ∧ l `sublist_of` teams db
       ∧ (length l ≤ 1000)%nat
       ∧ (∀ t, t ∈ l → t ∈ teams db ∧ Team.leader_id t = User.id current_user
                      ∧ Team.members t = [User.id current_user])
       ∧ ((length (teams db) ≤ 1000)%nat →
          ∀ t, t ∈ teams db → Team.leader_id t = User.id current_user → t ∈ l)
       ∧ (reachable db → NoDup (Team.event_id <$> l)).
Proof.
  intros Hi. apply interleaved_identities_active_teams_led in Hi as [_ Hm].
  eexists. split; [reflexivity|].
  split; [apply find_to_list_sublist|].
  split; [apply find_to_list_length|]. split; [|split].
  - intros t Hin. apply find_to_list_elem in Hin as [Hin Hp].
    split; [done|]. pose proof (Hm t Hin) as Hmem.
    assert (Team.leader_id t = User.id current_user) as Hl.
    { unfold leads_or_member in Hp.
      apply orb_true_iff in Hp as [Hp | Hp]; apply bool_decide_eq_true in Hp; [done|].
      rewrite Hmem in Hp. by apply list_elem_of_singleton in Hp. }
    split; [done|]. by rewrite Hmem, Hl.
  - intros Hlen t Hin Hl. apply find_to_list_complete; [done | done |].
    unfold leads_or_member. by rewrite bool_decide_eq_true_2.
  - intros Hr. apply reachable_invariant in Hr. destruct Hr as [_ _ _ _ Ht _ _].
    unfold find_to_list. rewrite fmap_take.
    apply (sublist_NoDup _ (Team.event_id <$> List.filter
                              (leads_or_member (User.id current_user)) (teams db)));
      [|apply sublist_take].
    apply filter_keys_NoDup. intros k.
    specialize (Ht k (User.id current_user)). unfold teams_of in Ht.
    by unfold on_team_of_event in Ht.
Qed.

Lemma NoDup_key_inj {A} (key : A → string) (l : list A) (x y : A) :
  NoDup (key <$> l) → x ∈ l → y ∈ l → key x = key y → x = y.
Proof.
  intros Hnd Hx Hy Hk.
  pose proof (find_one_unique key l x Hnd Hx) as H1.
  pose proof (find_one_unique key l y Hnd Hy) as H2.
  rewrite Hk in H1. congruence.
Qed.

(** X21. Only its organizer changes an event: in a reachable store, after
    any request a stored event is still stored unchanged, unless the request
    is a status update for that event's id whose credentials resolve to an
    organizer with the event's [organizer_id]; then the event is stored with
    the requested status and its other fields unchanged. *)
Theorem only_the_organizer_changes_an_event (db : DB) (now : Z) (req : Request)
    (e : Event.t) :
  reachable db →
  e ∈ events db →
  e ∈ events (exec now req db)
  ∨ ∃ credentials status u,
      req = PUT_events_status credentials (Event.id e) status
      ∧ require_role [ORGANIZER] now credentials db = (Ok u, db)
      ∧ User.id u = Event.organizer_id e
      ∧ set_status status e ∈ events (exec now req db).
Proof.
  intros Hr He. apply reachable_invariant in Hr. destruct Hr as [_ _ Hnd _ _ _ _].
  pose proof (handle_outcome now req db) as Ho. unfold exec.
  destruct (handle now req db) as [r db']. simpl in *.
  inversion Ho; subst; simpl; try (by left).
  - left. apply elem_of_app. by left.
  - rewrite (update_one_unique Event.id) by done.
    destruct (decide (Event.id e = Event.id e0)) as [Hid | Hid].
    + assert (e0 = e) as -> by (by apply (NoDup_key_inj Event.id (events db))).
      right. exists credentials, status, u. repeat split; try done.
      apply list_elem_of_fmap. exists e. split; [|done].
      by rewrite bool_decide_eq_true_2.
    + left. apply list_elem_of_fmap. exists e. split; [|done].
      by rewrite bool_decide_eq_false_2.
Qed.

End Server.

(** ** The example run *)

Lemma demo_token_issued (u : User.t) (t : Z) :
  create_jwt_token demo_secret demo_isoformat t (user_dict u) = demo_token u t.
Proof. rewrite create_jwt_token_claims. reflexivity. Qed.

Lemma db_registered_reachable :
  reachable demo_secret demo_isoformat demo_hashpw demo_checkpw demo_int db_registered.
Proof.
  apply (run_reachable _ _ _ _ _ registrations empty_db empty_db); [apply reach_refl|].
  vm_compute. reflexivity.
Qed.

Lemma db_active_reachable_from :
  reachable_from demo_secret demo_isoformat demo_hashpw demo_checkpw demo_int
                 db_registered db_active.
Proof.
  apply (run_reachable _ _ _ _ _ opening db_registered db_registered);
    [apply reach_refl|].
  vm_compute. reflexivity.
Qed.

Lemma db_active_reachable :
  reachable demo_secret demo_isoformat demo_hashpw demo_checkpw demo_int db_active.
Proof.
  eapply reachable_from_trans;
    [apply db_registered_reachable | apply db_active_reachable_from].
Qed.

Lemma db_closed_reachable_from :
  reachable_from demo_secret demo_isoformat demo_hashpw demo_checkpw demo_int
                 db_registered db_closed.
Proof.
  apply (reachable_from_trans _ _ _ _ _ _ db_active); [apply db_active_reachable_from|].
  apply (run_reachable _ _ _ _ _ competition db_active db_active); [apply reach_refl|].
  vm_compute. reflexivity.
Qed.

Lemma db_closed_reachable :
  reachable demo_secret demo_isoformat demo_hashpw demo_checkpw demo_int db_closed.
Proof.
  eapply reachable_from_trans;
    [apply db_registered_reachable | apply db_closed_reachable_from].
Qed.

(** ** The claims on the example run *)

(** C1, counterexample. Dana's account is deactivated, her token is
    otherwise valid, and [get_current_user] authenticates it: the routes
    behind it answer as for an active account. *)
Lemma C1_deactivated_identity_authenticates :
  User.is_active dana = false
  ∧ find_one (by_id (Some (VStr "u-off"))) (users db_deactivated)
    = Some (UserDoc.mk dana "$2b$pw3")
  ∧ decode_jwt_token demo_secret demo_int 20 (demo_token dana 10) = Ok (demo_claims dana 10)
  ∧ get_current_user demo_secret demo_int 20 (demo_token dana 10) db_deactivated
    = (Ok dana, db_deactivated)
  ∧ route_get_current_user_info demo_secret demo_int 20 (demo_token dana 10) db_deactivated
    = (Ok (user_response dana), db_deactivated)
  ∧ route_get_my_teams demo_secret demo_int 20 (demo_token dana 10) db_deactivated
    = (Ok [], db_deactivated).
Proof. repeat split; vm_compute; reflexivity. Qed.

Lemma C1_witness :
  decode_jwt_token demo_secret demo_int 20 (demo_token dana 10) = Ok (demo_claims dana 10)
  ∧ get_current_user demo_secret demo_int 20 (demo_token dana 10) db_deactivated
    = (Ok dana, db_deactivated)
  ∧ get_current_user demo_secret demo_int 20 (demo_token dana 10) empty_db
    = (Raise (HTTP_401 "Invalid authentication"), empty_db).
Proof.
  assert (decode_jwt_token demo_secret demo_int 20 (demo_token dana 10)
          = Ok (demo_claims dana 10)) as Hdec by (vm_compute; reflexivity).
  split; [exact Hdec|]. split.
  - destruct (C1_authenticate_refetches_by_id demo_secret demo_int db_deactivated 20 _ _ Hdec)
      as (_ & Hfound & _).
    apply (Hfound (UserDoc.mk dana "$2b$pw3")); vm_compute; reflexivity.
  - destruct (C1_authenticate_refetches_by_id demo_secret demo_int empty_db 20 _ _ Hdec)
      as (Habsent & _).
    apply Habsent. vm_compute; reflexivity.
Defined.

(** C2, at the failing input. At time 100000 the token issued for Olga at
    time 10 has expired and [decode_jwt_token] says so, a token signed with
    another key and a string that is no token are "Invalid token"; presented
    to [get_current_user], all three are answered by the same 401 "Invalid
    authentication". *)
Theorem C2_expired_and_forged_answered_alike :
  decode_jwt_token demo_secret demo_int 100000 (demo_token olga 10)
  = Raise (HTTP_401 "Token expired")
  ∧ decode_jwt_token demo_secret demo_int 100000 forged_token = Raise (HTTP_401 "Invalid token")
  ∧ decode_jwt_token demo_secret demo_int 100000 garbage_token = Raise (HTTP_401 "Invalid token")
  ∧ get_current_user demo_secret demo_int 100000 (demo_token olga 10) db_registered
    = (Raise (HTTP_401 "Invalid authentication"), db_registered)
  ∧ get_current_user demo_secret demo_int 100000 forged_token db_registered
    = (Raise (HTTP_401 "Invalid authentication"), db_registered)
  ∧ get_current_user demo_secret demo_int 100000 garbage_token db_registered
    = (Raise (HTTP_401 "Invalid authentication"), db_registered).
Proof. repeat split; vm_compute; reflexivity. Qed.

Lemma C3_witness :
  NoDup (Event.id <$> events db_closed)
  ∧ (∃ db', update_event_status "e-1" DRAFT olga db_closed
            = (Ok "Event status updated successfully", db')
            ∧ events db' = [demo_event DRAFT])
  ∧ update_event_status "e-1" DRAFT pat db_closed
    = (Raise (HTTP_404 "Event not found or unauthorized"), db_closed)
  ∧ update_event_status "e-9" DRAFT olga db_closed
    = (Raise (HTTP_404 "Event not found or unauthorized"), db_closed).
Proof.
  assert (NoDup (Event.id <$> events db_closed)) as Hnd by apply NoDup_singleton.
  split; [exact Hnd|]. split; [|split].
  - destruct (C3_update_event_status db_closed "e-1" DRAFT olga Hnd) as (Hown & _).
    destruct (Hown (demo_event SUBMISSIONS_CLOSED)) as (db' & Hcall & Hev & _);
      [apply list_elem_of_here | reflexivity | reflexivity |].
    exists db'. split; [exact Hcall | exact Hev].
  - destruct (C3_update_event_status db_closed "e-1" DRAFT pat Hnd) as (_ & Hother).
    apply Hother. intros e Hin _.
    apply list_elem_of_singleton in Hin. subst e. discriminate.
  - destruct (C3_update_event_status db_closed "e-9" DRAFT olga Hnd) as (_ & Hother).
    apply Hother. intros e Hin Hid.
    apply list_elem_of_singleton in Hin. subst e. discriminate.
Defined.

Lemma C4_witness :
  login demo_secret demo_isoformat demo_checkpw
        (UserLogin.mk "o@x.com" "wrong") 10 db_registered
  = (Raise (HTTP_401 "Invalid credentials"), db_registered)
  ∧ login demo_secret demo_isoformat demo_checkpw
          (UserLogin.mk "nobody@x.com" "pw1") 12 db_registered
    = (Raise (HTTP_401 "Invalid credentials"), db_registered).
Proof.
  destruct (C4_login_same_error demo_secret demo_isoformat demo_checkpw db_registered
              (UserLogin.mk "o@x.com" "wrong") (UserLogin.mk "nobody@x.com" "pw1")
              10 12 (UserDoc.mk olga "$2b$pw1"))
    as (Hknown & Hunknown & _); [reflexivity | reflexivity | reflexivity |].
  split; [exact Hknown | exact Hunknown].
Defined.

Lemma C5_witness :
  ∃ payload,
    decode_jwt_token demo_secret demo_int 20
      (create_jwt_token demo_secret demo_isoformat 10 (user_dict olga)) = Ok payload
    ∧ payload !! "id" = Some (VStr "u-org")
    ∧ payload !! "role" = Some (VStr "organizer")
    ∧ payload !! "exp" = Some (VInt 86410).
Proof. apply (C5_token_round_trip demo_secret demo_isoformat demo_int olga 10 20). lia. Defined.

Lemma C6_witness :
  ∃ team, create_team (TeamCreate.mk "Team" "e-1") pat "t-1" 40 db_active
          = (Ok team, insert_team team db_active)
          ∧ Team.leader_id team = "u-par" ∧ Team.members team = ["u-par"]
          ∧ Team.event_id team = "e-1".
Proof.
  destruct (C6_create_team_gating db_active (TeamCreate.mk "Team" "e-1") pat "t-1" 40
              (demo_event ACTIVE)) as (Hok & _).
  - reflexivity.
  - intros t Hin. inversion Hin.
  - apply Hok. left. reflexivity.
Defined.

Lemma db_two_teams_interleaved :
  interleaved demo_secret demo_isoformat demo_hashpw demo_checkpw demo_int db_two_teams.
Proof.
  apply (reachable_then_interleaved _ _ _ _ _ empty_db db_active db_two_teams
           db_active_reachable).
  exists racing_teams, []. vm_compute. reflexivity.
Qed.

Lemma db_two_submissions_interleaved :
  interleaved demo_secret demo_isoformat demo_hashpw demo_checkpw demo_int
              db_two_submissions.
Proof.
  apply (reachable_then_interleaved _ _ _ _ _ empty_db db_team_formed
           db_two_submissions).
  - apply (reachable_from_trans _ _ _ _ _ _ db_active); [apply db_active_reachable|].
    apply (run_reachable _ _ _ _ _ team_formed db_active db_active); [apply reach_refl|].
    vm_compute. reflexivity.
  - exists racing_submissions, []. vm_compute. reflexivity.
Qed.

(** C7, counterexample. (a) Two team creations by Pat for event e-1 that
    interleave between the lookup and the insert both succeed: the server
    reaches a store in which Pat leads two teams of e-1.  (b) After the run
    of requests handled one at a time, Pat leads a team of event e-1, whose
    submissions are closed; a further [create_team] by Pat for e-1 is
    rejected as "Event not available for registration", not as "Already
    part of a team for this event". *)
Lemma C7_teamed_identity_rejected_as_unavailable :
  (interleaved demo_secret demo_isoformat demo_hashpw demo_checkpw demo_int db_two_teams
   ∧ schedule demo_secret demo_isoformat demo_hashpw demo_checkpw demo_int
       racing_teams (db_active, []) = Some (db_two_teams, [])
   ∧ length (teams_of "e-1" "u-par" db_two_teams) = 2%nat
   ∧ NoDup (Team.id <$> teams db_two_teams))
  ∧ reachable demo_secret demo_isoformat demo_hashpw demo_checkpw demo_int db_closed
  ∧ demo_team ∈ teams db_closed
  ∧ Team.event_id demo_team = "e-1"
  ∧ Team.leader_id demo_team = User.id pat
  ∧ create_team (TeamCreate.mk "Other" "e-1") pat "t-2" 80 db_closed
    = (Raise (HTTP_400 "Event not available for registration"), db_closed)
  ∧ route_create_team demo_secret demo_int 80 (demo_token pat 11)
      (TeamCreate.mk "Other" "e-1") "t-2" db_closed
    = (Raise (HTTP_400 "Event not available for registration"), db_closed)
  ∧ HTTP_400 "Event not available for registration"
    ≠ HTTP_400 "Already part of a team for this event".
Proof.
  split.
  - split; [apply db_two_teams_interleaved|].
    split; [vm_compute; reflexivity|]. split; [reflexivity|].
    apply (bool_decide_unpack _). vm_compute. reflexivity.
  - split; [apply db_closed_reachable|].
    split; [apply list_elem_of_here|].
    repeat split; try (vm_compute; reflexivity). discriminate.
Qed.

Lemma C7_witness :
  reachable demo_secret demo_isoformat demo_hashpw demo_checkpw demo_int db_closed
  ∧ (length (teams_of "e-1" "u-par" db_closed) ≤ 1)%nat
  ∧ ∃ e, create_team (TeamCreate.mk "Other" "e-1") pat "t-2" 80 db_closed
         = (Raise e, db_closed)
         ∧ status_code e = 400.
Proof.
  assert (reachable demo_secret demo_isoformat demo_hashpw demo_checkpw demo_int
                    db_closed) as Hr by apply db_closed_reachable.
  split; [exact Hr|].
  destruct (C7_one_team_per_event demo_secret demo_isoformat demo_hashpw demo_checkpw
              demo_int db_closed (TeamCreate.mk "Other" "e-1") pat "t-2" 80)
    as (Hinv & Hcall).
  split; [apply (Hinv Hr)|].
  destruct Hcall as (e & Hcall & Hcode & _).
  - exists demo_team. split; [apply list_elem_of_here|].
    split; [reflexivity | left; reflexivity].
  - exists e. split; [exact Hcall | exact Hcode].
Defined.

(** C8, counterexample. (a) Two submissions for team t-1 that interleave
    between the lookup and the insert both succeed: the server reaches a
    store with two submissions for the pair (t-1, e-1).  (b) After the run
    of requests handled one at a time, team t-1 has a submission for its
    event, whose submissions are closed; a further [create_submission] by
    Pat for t-1 is rejected as "Submissions not open for this event", and one
    by Olga, who is not a member, as "Not a member of this team"; neither is
    "Submission already exists for this team". *)
Lemma C8_resubmission_rejected_by_earlier_check :
  (interleaved demo_secret demo_isoformat demo_hashpw demo_checkpw demo_int
               db_two_submissions
   ∧ schedule demo_secret demo_isoformat demo_hashpw demo_checkpw demo_int
       racing_submissions (db_team_formed, []) = Some (db_two_submissions, [])
   ∧ length (submissions_of "t-1" "e-1" db_two_submissions) = 2%nat
   ∧ NoDup (Submission.id <$> submissions db_two_submissions))
  ∧ reachable demo_secret demo_isoformat demo_hashpw demo_checkpw demo_int db_closed
  ∧ demo_submission ∈ submissions db_closed
  ∧ Submission.team_id demo_submission = "t-1"
  ∧ Submission.event_id demo_submission = Team.event_id demo_team
  ∧ create_submission demo_submission_data "t-1" pat "s-2" 80 db_closed
    = (Raise (HTTP_400 "Submissions not open for this event"), db_closed)
  ∧ route_create_submission demo_secret demo_int 80 (demo_token pat 11)
      demo_submission_data "t-1" "s-2" db_closed
    = (Raise (HTTP_400 "Submissions not open for this event"), db_closed)
  ∧ create_submission demo_submission_data "t-1" olga "s-2" 80 db_closed
    = (Raise (HTTP_403 "Not a member of this team"), db_closed)
  ∧ HTTP_400 "Submissions not open for this event"
    ≠ HTTP_400 "Submission already exists for this team"
  ∧ HTTP_403 "Not a member of this team"
    ≠ HTTP_400 "Submission already exists for this team".
Proof.
  split.
  - split; [apply db_two_submissions_interleaved|].
    split; [vm_compute; reflexivity|]. split; [reflexivity|].
    apply (bool_decide_unpack _). vm_compute. reflexivity.
  - split; [apply db_closed_reachable|].
    split; [apply list_elem_of_here|].
    repeat split; try (vm_compute; reflexivity); discriminate.
Qed.

Lemma C8_witness :
  reachable demo_secret demo_isoformat demo_hashpw demo_checkpw demo_int db_closed
  ∧ (length (submissions_of "t-1" "e-1" db_closed) ≤ 1)%nat
  ∧ ∃ e, create_submission demo_submission_data "t-1" pat "s-2" 80 db_closed
         = (Raise e, db_closed).
Proof.
  assert (reachable demo_secret demo_isoformat demo_hashpw demo_checkpw demo_int
                    db_closed) as Hr by apply db_closed_reachable.
  split; [exact Hr|].
  destruct (C8_one_submission_per_team demo_secret demo_isoformat demo_hashpw
              demo_checkpw demo_int db_closed demo_submission_data "t-1" pat "s-2" 80)
    as (Hone & Hcall & _).
  split; [apply (Hone Hr)|].
  destruct (Hcall demo_team) as (e & Hraise & _).
  - reflexivity.
  - exists demo_submission. split; [apply list_elem_of_here|]. split; reflexivity.
  - exists e. exact Hraise.
Defined.

Lemma C9_witness :
  route_create_event demo_secret demo_int 80 (demo_token pat 11) demo_event_data "e-2" db_closed
  = (Raise (HTTP_403 "Insufficient permissions"), db_closed)
  ∧ route_update_event_status demo_secret demo_int 80 (demo_token pat 11) "e-1" ACTIVE db_closed
    = (Raise (HTTP_403 "Insufficient permissions"), db_closed).
Proof.
  destruct (C9_wrong_role_forbidden demo_secret demo_isoformat demo_hashpw demo_checkpw demo_int
              db_registered db_registered db_closed (UserLogin.mk "p@x.com" "pw2") 11 80
              (LoginResponse.mk (demo_token pat 11) "bearer" (user_response pat))
              PARTICIPANT [ORGANIZER])
    as (_ & _ & _ & Hroutes).
  - apply db_registered_reachable.
  - vm_compute. reflexivity.
  - apply db_closed_reachable_from.
  - lia.
  - reflexivity.
  - intros Hin. apply list_elem_of_singleton in Hin. discriminate.
  - destruct (Hroutes eq_refl demo_event_data "e-2" "e-1" ACTIVE) as (H1 & _ & H3).
    split; [exact H1 | exact H3].
Defined.

Lemma C10_witness :
  (∀ t, t ∈ teams db_active → Team.members t = [Team.leader_id t])
  ∧ db_sim db_active db_active_no_room
  ∧ result_sim
      (fst (handle demo_secret demo_isoformat demo_hashpw demo_checkpw demo_int 40
                   (POST_teams (demo_token pat 11) (TeamCreate.mk "Team" "e-1") "t-1")
                   db_active))
      (fst (handle demo_secret demo_isoformat demo_hashpw demo_checkpw demo_int 40
                   (POST_teams (demo_token pat 11) (TeamCreate.mk "Team" "e-1") "t-1")
                   db_active_no_room))
  ∧ fst (handle demo_secret demo_isoformat demo_hashpw demo_checkpw demo_int 40
                (POST_teams (demo_token pat 11) (TeamCreate.mk "Team" "e-1") "t-1")
                db_active_no_room)
    = Ok (RTeam demo_team).
Proof.
  assert (db_sim db_active db_active_no_room) as Hsim.
  { split; [reflexivity|]. split; [|split; reflexivity].
    apply Forall2_cons_2; [reflexivity | apply Forall2_nil_2]. }
  destruct (C10_members_is_leader demo_secret demo_isoformat demo_hashpw demo_checkpw demo_int
              db_active 40
              (POST_teams (demo_token pat 11) (TeamCreate.mk "Team" "e-1") "t-1")
              db_active_reachable)
    as (Hmembers & _ & Hindep).
  split; [exact Hmembers|]. split; [exact Hsim|].
  split; [apply (Hindep db_active_no_room Hsim)|].
  vm_compute. reflexivity.
Defined.

(** ** Further properties on the example run *)


Lemma db_opened_early_reachable :
  reachable demo_secret demo_isoformat demo_hashpw demo_checkpw demo_int db_opened_early.
Proof.
  apply (reachable_from_trans _ _ _ _ _ _ db_active); [apply db_active_reachable|].
  apply (run_reachable _ _ _ _ _ opened_early db_active db_active); [apply reach_refl|].
  vm_compute. reflexivity.
Qed.


Lemma get_event_by_id_witness :
  get_event "e-1" db_closed = (Ok (demo_event SUBMISSIONS_CLOSED), db_closed)
  ∧ get_event "e-9" db_closed = (Raise (HTTP_404 "Event not found"), db_closed).
Proof.
  destruct (get_event_by_id db_closed "e-1") as (Hfound & _);
    [apply NoDup_singleton|].
  destruct (get_event_by_id db_closed "e-9") as (_ & Hmissing);
    [apply NoDup_singleton|].
  split.
  - apply Hfound; [apply list_elem_of_here | reflexivity].
  - apply Hmissing. intros Hin. apply list_elem_of_singleton in Hin. discriminate.
Defined.

Lemma register_rejects_a_taken_email_witness :
  register demo_hashpw (UserCreate.mk "o@x.com" "Other" "pw9" JUDGE) "u-9" 5 "s9"
           db_registered
  = (Raise (HTTP_400 "Email already registered"), db_registered).
Proof.
  apply (register_rejects_a_taken_email demo_hashpw db_registered _ _ _ _
           (UserDoc.mk olga "$2b$pw1")); [apply list_elem_of_here | reflexivity].
Defined.


Lemma db_one_email_twice_interleaved :
  interleaved demo_secret demo_isoformat demo_hashpw demo_checkpw demo_int
              db_one_email_twice.
Proof. exists racing_registrations, []. vm_compute. reflexivity. Qed.

(** Two registrations of one email that interleave between the lookup and
    the insert both succeed: the server reaches a store in which two
    identities, with distinct ids, have the same email. *)
Lemma racing_registrations_store_an_email_twice :
  schedule demo_secret demo_isoformat demo_hashpw demo_checkpw demo_int
           racing_registrations (empty_db, []) = Some (db_one_email_twice, [])
  ∧ (User.email ∘ UserDoc.user) <$> users db_one_email_twice = ["o@x.com"; "o@x.com"]
  ∧ (User.id ∘ UserDoc.user) <$> users db_one_email_twice = ["u-org"; "u-two"]
  ∧ ¬ NoDup ((User.email ∘ UserDoc.user) <$> users db_one_email_twice).
Proof.
  split; [vm_compute; reflexivity|]. split; [reflexivity|]. split; [reflexivity|].
  intros Hnd. apply NoDup_cons in Hnd as [Hnotin _]. apply Hnotin, list_elem_of_here.
Qed.

Lemma reachable_emails_unique_and_active_witness :
  NoDup ((User.email ∘ UserDoc.user) <$> users db_closed)
  ∧ User.is_active (User.mk "u-two" "o@x.com" "Otto" JUDGE 2 true) = true.
Proof.
  destruct (reachable_emails_unique_and_active demo_secret demo_isoformat demo_hashpw
              demo_checkpw demo_int db_closed) as (_ & Hemails).
  destruct (reachable_emails_unique_and_active demo_secret demo_isoformat demo_hashpw
              demo_checkpw demo_int db_one_email_twice) as (Hactive & _).
  split; [apply (Hemails db_closed_reachable)|].
  apply (Hactive db_one_email_twice_interleaved
           (UserDoc.mk (User.mk "u-two" "o@x.com" "Otto" JUDGE 2 true) "$2b$pw9")).
  apply list_elem_of_further, list_elem_of_here.
Defined.

Lemma failed_request_leaves_the_store_witness :
  exec demo_secret demo_isoformat demo_hashpw demo_checkpw demo_int 80
       (POST_teams (demo_token pat 11) (TeamCreate.mk "Other" "e-1") "t-2") db_closed
  = db_closed.
Proof.
  apply (failed_request_leaves_the_store demo_secret demo_isoformat demo_hashpw
           demo_checkpw demo_int 80 _ db_closed
           (HTTP_400 "Event not available for registration")).
  vm_compute. reflexivity.
Defined.

Lemma writes_follow_the_role_witness :
  events (exec demo_secret demo_isoformat demo_hashpw demo_checkpw demo_int 80
               (PUT_events_status (demo_token pat 11) "e-1" ACTIVE) db_closed)
  = events db_closed.
Proof.
  destruct (writes_follow_the_role demo_secret demo_isoformat demo_hashpw demo_checkpw demo_int
              80 (PUT_events_status (demo_token pat 11) "e-1" ACTIVE) db_closed
              (demo_token pat 11) pat) as (_ & Hevents & _).
  - reflexivity.
  - vm_compute. reflexivity.
  - apply Hevents. discriminate.
Defined.

Lemma reachable_references_resolve_witness :
  Team.event_id demo_team ∈ Event.id <$> events db_closed
  ∧ ∃ d, d ∈ users db_closed ∧ User.id (UserDoc.user d) = Team.leader_id demo_team
         ∧ User.role (UserDoc.user d) = PARTICIPANT.
Proof.
  destruct (reachable_references_resolve demo_secret demo_isoformat demo_hashpw
              demo_checkpw demo_int db_closed db_closed_reachable) as (_ & Hteams & _).
  apply Hteams. apply list_elem_of_here.
Defined.


Lemma issued_token_expires_witness :
  decode_jwt_token demo_secret demo_int 100000
    (create_jwt_token demo_secret demo_isoformat 10 (user_dict olga))
  = Raise (HTTP_401 "Token expired")
  ∧ require_role demo_secret demo_int [ORGANIZER] 100000
      (create_jwt_token demo_secret demo_isoformat 10 (user_dict olga)) db_closed
    = (Raise (HTTP_401 "Invalid authentication"), db_closed).
Proof.
  destruct (issued_token_expires demo_secret demo_isoformat demo_int 10 100000 olga
              db_closed [ORGANIZER]) as (Hdec & _ & Hrole); [lia|].
  split; [exact Hdec | exact Hrole].
Defined.

Lemma authentication_reads_only_the_id_claim_witness :
  require_role demo_secret demo_int [ORGANIZER] 20 role_claim_token db_closed
  = require_role demo_secret demo_int [ORGANIZER] 20 (demo_token pat 11) db_closed.
Proof.
  destruct (authentication_reads_only_the_id_claim demo_secret demo_int db_closed 20
              role_claim_token (demo_token pat 11)
              (list_to_map [ ("id", VStr "u-par"); ("role", VStr "organizer");
                             ("exp", VInt 86411) ])
              (demo_claims pat 11) [ORGANIZER]) as (_ & Hrole);
    [reflexivity | reflexivity | reflexivity |].
  exact Hrole.
Defined.

Lemma login_then_authenticate_witness :
  ∃ u, user_response u = user_response pat
       ∧ route_get_current_user_info demo_secret demo_int 80 (demo_token pat 11) db_closed
         = (Ok (user_response pat), db_closed).
Proof.
  destruct (login_then_authenticate demo_secret demo_isoformat demo_hashpw demo_checkpw demo_int
              db_registered db_registered db_closed (UserLogin.mk "p@x.com" "pw2") 11 80
              (LoginResponse.mk (demo_token pat 11) "bearer" (user_response pat)))
    as (u & Hu & _ & _ & Hme & _).
  - apply db_registered_reachable.
  - vm_compute. reflexivity.
  - apply db_closed_reachable_from.
  - lia.
  - exists u. split; [exact Hu | exact Hme].
Defined.

Lemma create_submission_gating_witness :
  create_submission demo_submission_data "t-1" pat "s-1" 60 db_team_formed
  = (Ok demo_submission, insert_submission demo_submission db_team_formed).
Proof.
  destruct (create_submission_gating db_team_formed demo_submission_data "t-1" pat "s-1"
              60 demo_team (demo_event SUBMISSIONS_OPEN)) as (Hopen & _).
  - reflexivity.
  - apply list_elem_of_here.
  - reflexivity.
  - intros s Hs. inversion Hs.
  - apply Hopen. reflexivity.
Defined.

Lemma create_submission_hides_unknown_teams_witness :
  create_submission demo_submission_data "t-9" pat "s-2" 60 db_team_formed
  = (Raise (HTTP_403 "Not a member of this team"), db_team_formed)
  ∧ create_submission demo_submission_data "t-1" olga "s-2" 60 db_team_formed
    = (Raise (HTTP_403 "Not a member of this team"), db_team_formed).
Proof.
  split.
  - apply create_submission_hides_unknown_teams. intros t Ht Hid.
    apply list_elem_of_singleton in Ht. subst t. discriminate.
  - apply create_submission_hides_unknown_teams. intros t Ht _ Hmem.
    apply list_elem_of_singleton in Ht. subst t.
    apply list_elem_of_singleton in Hmem. discriminate.
Defined.


Lemma create_team_then_submit_witness :
  ∃ s, create_submission demo_submission_data "t-1" pat "s-1" 60
         (insert_team demo_team db_opened_early)
       = (Ok s, insert_submission s (insert_team demo_team db_opened_early))
       ∧ Submission.team_id s = "t-1"
       ∧ Submission.event_id s = "e-1".
Proof.
  apply (create_team_then_submit demo_secret demo_isoformat demo_hashpw demo_checkpw demo_int
           db_opened_early _ (TeamCreate.mk "Team" "e-1") pat "t-1" 40 60 demo_team).
  - apply db_opened_early_reachable.
  - intros Hin. inversion Hin.
  - reflexivity.
  - reflexivity.
Defined.

Lemma get_my_teams_lists_the_callers_teams_witness :
  ∃ l, get_my_teams pat db_two_teams = (Ok l, db_two_teams)
       ∧ (length l ≤ 1000)%nat
       ∧ demo_team ∈ l.
Proof.
  destruct (get_my_teams_lists_the_callers_teams demo_secret demo_isoformat demo_hashpw
              demo_checkpw demo_int db_two_teams pat db_two_teams_interleaved)
    as (l & Hcall & _ & Hlen & _ & Hall & _).
  exists l. split; [exact Hcall|]. split; [exact Hlen|].
  apply Hall; [simpl; lia | apply list_elem_of_here | reflexivity].
Defined.

Lemma only_the_organizer_changes_an_event_witness :
  demo_event SUBMISSIONS_CLOSED
    ∈ events (exec demo_secret demo_isoformat demo_hashpw demo_checkpw demo_int 80
                   (PUT_events_status (demo_token pat 11) "e-1" ACTIVE) db_closed)
  ∨ ∃ credentials status u,
      PUT_events_status (demo_token pat 11) "e-1" ACTIVE
      = PUT_events_status credentials (Event.id (demo_event SUBMISSIONS_CLOSED)) status
      ∧ require_role demo_secret demo_int [ORGANIZER] 80 credentials db_closed = (Ok u, db_closed)
      ∧ User.id u = Event.organizer_id (demo_event SUBMISSIONS_CLOSED)
      ∧ set_status status (demo_event SUBMISSIONS_CLOSED)
          ∈ events (exec demo_secret demo_isoformat demo_hashpw demo_checkpw demo_int 80
                         (PUT_events_status (demo_token pat 11) "e-1" ACTIVE) db_closed).
Proof.
  apply (only_the_organizer_changes_an_event demo_secret demo_isoformat demo_hashpw
           demo_checkpw demo_int db_closed 80 _ (demo_event SUBMISSIONS_CLOSED)
           db_closed_reachable).
  apply list_elem_of_here.
Defined.
